(** * videos.py: cache placement as a MIP model

    A shallow embedding of [src/videos.py]: the instance reader
    [read_instance], the formulation builder [build_model], the solution
    extractor [write_solution] and the driver [main].

    Modelling conventions.
    - Python integers are [Z].
    - A Python [dict] is an association list in insertion order with unique
      keys ([PyDict]); assigning to a key that is present keeps its place.
    - A Python exception is a constructor of [exn]; code that may raise
      returns a [result].
    - The instance file is taken after tokenisation: a list of lines, each
      line the list of integers that [map(int, line.split())] yields.
    - The solver library is modelled by what the program asks of it: the
      model is the record of the variables, constraints and objective it was
      given ([Model]); optimisation is a function from models to what the
      program reads back ([Solution]).
    - The values a solver returns are finite floats, hence rationals; the
      only operation on them is the exact comparison with [0.5].  The gap
      [5e-3] is carried as the rational [5 # 1000]. *)

From Stdlib Require Import ZArith List Lia Bool QArith Sorted.
From Stdlib Require String Ascii DecimalString DecimalPos DecimalZ Finite.
Import String.StringSyntax Ascii.AsciiSyntax.
Delimit Scope string_scope with string.
Delimit Scope char_scope with char.
Open Scope string_scope.
Import ListNotations.
Open Scope Z_scope.

(** ** Exceptions and the error monad *)

Inductive exn : Set := ValueError | AssertionError | IndexError | KeyError.

Inductive result (A : Type) : Type :=
| Ok (a : A)
| Raise (e : exn).
Arguments Ok {A} a.
Arguments Raise {A} e.

Definition bind {A B} (r : result A) (k : A -> result B) : result B :=
  match r with
  | Ok a => k a
  | Raise e => Raise e
  end.

Declare Scope py_scope.
Delimit Scope py_scope with py.
Notation "x <- c1 ;; c2" := (bind c1 (fun x => c2))
  (at level 61, c1 at next level, right associativity) : py_scope.
Notation "' pat <- c1 ;; c2" := (bind c1 (fun x => match x with pat => c2 end))
  (at level 61, pat pattern, c1 at next level, right associativity) : py_scope.
Open Scope py_scope.

(** A [for] loop whose body may raise, threading an accumulator. *)
Fixpoint foldM {A B} (f : A -> B -> result A) (l : list B) (a : A) : result A :=
  match l with
  | [] => Ok a
  | x :: r => a' <- f a x ;; foldM f r a'
  end.

(** A generator or comprehension whose element expression may raise. *)
Fixpoint mapM {A B} (f : A -> result B) (l : list A) : result (list B) :=
  match l with
  | [] => Ok []
  | x :: r => y <- f x ;; ys <- mapM f r ;; Ok (y :: ys)
  end.

(** ** Decidable equality on keys *)

Class EqDec (A : Type) := eq_dec : forall x y : A, {x = y} + {x <> y}.

#[export] Instance Z_EqDec : EqDec Z := Z.eq_dec.

#[export] Instance prod_EqDec {A B} `{EqDec A} `{EqDec B} : EqDec (A * B).
Proof.
  intros [a b] [a' b'].
  destruct (eq_dec a a') as [Ha | Ha]; [| right; congruence].
  destruct (eq_dec b b') as [Hb | Hb]; [left | right]; congruence.
Defined.

Definition mem {A} `{EqDec A} (x : A) (l : list A) : bool :=
  if in_dec eq_dec x l then true else false.

(** ** Python containers *)

(** [range(n)]: empty when [n <= 0]. *)
Definition range (n : Z) : list Z := map Z.of_nat (seq 0 (Z.to_nat n)).

(** [l[i]] on a list: a negative index counts from the end, an index
    outside [-len, len) raises [IndexError]. *)
Definition list_getitem {A} (l : list A) (i : Z) : result A :=
  let n := Z.of_nat (length l) in
  let j := if i <? 0 then i + n else i in
  if (j <? 0) || (n <=? j) then Raise IndexError
  else match nth_error l (Z.to_nat j) with
       | Some a => Ok a
       | None => Raise IndexError
       end.

Module PyDict.
Section Dict.
Context {K W : Type} `{EqDec K}.

Definition dict := list (K * W).

Definition keys (d : dict) : list K := map fst d.

(** [d.get(k)] *)
Fixpoint get (d : dict) (k : K) : option W :=
  match d with
  | [] => None
  | (k', w) :: r => if eq_dec k k' then Some w else get r k
  end.

(** [d.get(k, dflt)] *)
Definition get_default (d : dict) (k : K) (dflt : W) : W :=
  match get d k with
  | Some w => w
  | None => dflt
  end.

(** [d[k]] as an expression *)
Definition getitem (d : dict) (k : K) : result W :=
  match get d k with
  | Some w => Ok w
  | None => Raise KeyError
  end.

(** [d[k] = w]: a present key keeps its place, a new key goes last. *)
Fixpoint set (d : dict) (k : K) (w : W) : dict :=
  match d with
  | [] => [(k, w)]
  | (k', w') :: r => if eq_dec k k' then (k', w) :: r else (k', w') :: set r k w
  end.

(** The invariant of a Python dict: no key twice. *)
Definition ok (d : dict) : Prop := NoDup (keys d).
End Dict.
Arguments dict : clear implicits.
End PyDict.
Abbreviation dict := PyDict.dict.

(** ** The instance (the dict returned by [read_instance]) *)

Record Endpoint : Type := {
  dc_latency : Z;
  cache_latencies : dict Z Z
}.

Record data : Type := {
  V : Z; E : Z; R : Z; C : Z; X : Z;
  video_sizes : list Z;
  endpoints : list Endpoint;
  requests : dict (Z * Z) Z
}.

(** ** [read_instance] *)

(** The open file: the lines not yet read. *)
Definition file := list (list Z).

Definition reader (A : Type) := file -> result (A * file).

Definition ret {A} (a : A) : reader A := fun f => Ok (a, f).

Definition rbind {A B} (m : reader A) (k : A -> reader B) : reader B :=
  fun f => match m f with
           | Ok (a, f') => k a f'
           | Raise e => Raise e
           end.

Definition lift {A} (r : result A) : reader A :=
  fun f => match r with
           | Ok a => Ok (a, f)
           | Raise e => Raise e
           end.

Declare Scope reader_scope.
Delimit Scope reader_scope with reader.
Notation "x <~ c1 ;; c2" := (rbind c1 (fun x => c2))
  (at level 61, c1 at next level, right associativity) : reader_scope.
Notation "' pat <~ c1 ;; c2" := (rbind c1 (fun x => match x with pat => c2 end))
  (at level 61, pat pattern, c1 at next level, right associativity) : reader_scope.
Open Scope reader_scope.

(** [f.readline().split()] mapped through [int]: at end of file the line
    is empty. *)
Definition readline : reader (list Z) :=
  fun f => match f with
           | [] => Ok ([], [])
           | l :: r => Ok (l, r)
           end.

(** Tuple unpacking of a line; a wrong number of values is a [ValueError]. *)
Definition unpack2 (l : list Z) : result (Z * Z) :=
  match l with
  | [a; b] => Ok (a, b)
  | _ => Raise ValueError
  end.

Definition unpack3 (l : list Z) : result (Z * Z * Z) :=
  match l with
  | [a; b; c] => Ok (a, b, c)
  | _ => Raise ValueError
  end.

Definition unpack5 (l : list Z) : result (Z * Z * Z * Z * Z) :=
  match l with
  | [a; b; c; d; e] => Ok (a, b, c, d, e)
  | _ => Raise ValueError
  end.

(** [for _ in range(K)]: one [c_id lat] line each. *)
Fixpoint read_caches (n : nat) (cl : dict Z Z) : reader (dict Z Z) :=
  match n with
  | O => ret cl
  | S n' =>
      l <~ readline ;;
      '(c_id, lat) <~ lift (unpack2 l) ;;
      read_caches n' (PyDict.set cl c_id lat)
  end.

(** [for e in range(E)] *)
Fixpoint read_endpoints (n : nat) (eps : list Endpoint) : reader (list Endpoint) :=
  match n with
  | O => ret eps
  | S n' =>
      l <~ readline ;;
      '(dc, k) <~ lift (unpack2 l) ;;
      cl <~ read_caches (Z.to_nat k) [] ;;
      read_endpoints n' (eps ++ [{| dc_latency := dc; cache_latencies := cl |}])
  end.

(** One request record: [requests[key] = requests.get(key, 0) + n_req]. *)
Definition add_request (reqs : dict (Z * Z) Z) (rec : Z * Z * Z) : dict (Z * Z) Z :=
  let '(v_id, e_id, n_req) := rec in
  let key := (e_id, v_id) in
  PyDict.set reqs key (PyDict.get_default reqs key 0 + n_req).

(** [for _ in range(R)] *)
Fixpoint read_requests (n : nat) (reqs : dict (Z * Z) Z) : reader (dict (Z * Z) Z) :=
  match n with
  | O => ret reqs
  | S n' =>
      l <~ readline ;;
      rec <~ lift (unpack3 l) ;;
      read_requests n' (add_request reqs rec)
  end.

Definition read_instance (path : file) : result data :=
  match
    (l <~ readline ;;
     '(v, e, r, c, x) <~ lift (unpack5 l) ;;
     sizes <~ readline ;;
     _ <~ lift (if Z.of_nat (length sizes) =? v then Ok tt else Raise AssertionError) ;;
     eps <~ read_endpoints (Z.to_nat e) [] ;;
     reqs <~ read_requests (Z.to_nat r) [] ;;
     ret {| V := v; E := e; R := r; C := c; X := x;
            video_sizes := sizes; endpoints := eps; requests := reqs |}) path
  with
  | Ok (d, _) => Ok d
  | Raise e => Raise e
  end.

(** ** The model handed to the solver *)

(** A variable handle.  [model.addVars(V, C, name="y")] creates [y_var v c]
    for every [(v, c)] of [range(V) x range(C)], [model.addVars(z_keys,
    name="z")] creates [z_var e v c] for every listed key; all of them are
    [GRB.BINARY]. *)
Inductive Var : Set :=
| y_var (v c : Z)
| z_var (e v c : Z).

(** A linear expression: the terms in the order [quicksum] met them. *)
Record LinExpr : Type := {
  terms : list (Z * Var);
  constant : Z
}.

(** A variable used as an expression. *)
Definition of_var (x : Var) : LinExpr := {| terms := [(1, x)]; constant := 0 |}.

(** An integer used as an expression. *)
Definition of_const (k : Z) : LinExpr := {| terms := []; constant := k |}.

(** [gp.quicksum] of products [coefficient * variable]. *)
Definition quicksum (ts : list (Z * Var)) : LinExpr := {| terms := ts; constant := 0 |}.

(** Constraint names: [cap_cache_{c}], [link_e{e}_v{v}_c{c}] and
    [unique_e{e}_v{v}], kept structured. *)
Inductive CName : Set :=
| cap_cache (c : Z)
| link (e v c : Z)
| unique (e v : Z).

(** [model.addConstr(lhs <= rhs, name=...)] *)
Record Constr : Type := {
  cname : CName;
  lhs : LinExpr;
  rhs : LinExpr
}.

Inductive Sense : Set := MAXIMIZE | MINIMIZE.

(** What the program puts into [gp.Model("videos")]: the two parameters,
    the variables in creation order, the constraints in the order of the
    [addConstr] calls, and the objective with its sense. *)
Record Model : Type := {
  ModelName : String.string;
  MIPGap : Q;
  OutputFlag : Z;
  vars : list Var;
  constrs : list Constr;
  objective : LinExpr;
  ModelSense : Sense
}.

#[export] Instance Var_EqDec : EqDec Var.
Proof. intros x y. decide equality; apply Z.eq_dec. Defined.

#[export] Instance CName_EqDec : EqDec CName.
Proof. intros x y. decide equality; apply Z.eq_dec. Defined.

(** ** [build_model] *)

(** The handle stored under a key of [y]. *)
Definition y_of (k : Z * Z) : Var := let '(v, c) := k in y_var v c.

(** The tupledict of [addVars(V, C)]: an integer argument [n] stands for
    [range(n)], the keys come in [itertools.product] order. *)
Definition y_tupledict (nv nc : Z) : dict (Z * Z) Var :=
  map (fun k => (k, y_of k)) (list_prod (range nv) (range nc)).

(** The handle stored under a key of [z]. *)
Definition z_of (k : Z * Z * Z) : Var := let '(e, v, c) := k in z_var e v c.

(** The tupledict of [addVars(z_keys)]: one variable per listed key. *)
Definition z_tupledict (ks : list (Z * Z * Z)) : dict (Z * Z * Z) Var :=
  map (fun k => (k, z_of k)) ks.

(** The three accumulators of the pruning loop. *)
Record zstate : Type := {
  z_keys : list (Z * Z * Z);
  z_gain : dict (Z * Z * Z) Z;
  ev_to_caches : dict (Z * Z) (list Z)
}.

(** [ev_to_caches.setdefault(k, []).append(c)] *)
Definition setdefault_append (d : dict (Z * Z) (list Z)) (k : Z * Z) (c : Z)
  : dict (Z * Z) (list Z) :=
  match PyDict.get d k with
  | Some l => PyDict.set d k (l ++ [c])
  | None => PyDict.set d k [c]
  end.

(** Body of [for c, lat_ec in ep["cache_latencies"].items()]. *)
Definition z_inner (e v n_req dc_lat : Z) (st : zstate) (item : Z * Z) : zstate :=
  let '(c, lat_ec) := item in
  let save := dc_lat - lat_ec in
  if save <=? 0 then st
  else
    let key := (e, v, c) in
    {| z_keys := z_keys st ++ [key];
       z_gain := PyDict.set (z_gain st) key (n_req * save);
       ev_to_caches := setdefault_append (ev_to_caches st) (e, v) c |}.

(** Body of [for (e, v), n_req in requests.items()]. *)
Definition z_outer (eps : list Endpoint) (st : zstate) (item : Z * Z * Z)
  : result zstate :=
  let '(e, v, n_req) := item in
  ep <- list_getitem eps e ;;
  Ok (fold_left (z_inner e v n_req (dc_latency ep)) (cache_latencies ep) st).

(** [z_keys = []], [z_gain = {}], [ev_to_caches = {}] *)
Definition z_init : zstate := {| z_keys := []; z_gain := []; ev_to_caches := [] |}.

(** The pruning loop over [requests.items()]. *)
Definition z_phase (d : data) : result zstate :=
  foldM (z_outer (endpoints d)) (requests d) z_init.

(** [video_sizes[v] * y[v, c]] *)
Definition cap_term (d : data) (y : dict (Z * Z) Var) (c v : Z) : result (Z * Var) :=
  s <- list_getitem (video_sizes d) v ;;
  yv <- PyDict.getitem y (v, c) ;;
  Ok (s, yv).

(** [quicksum(video_sizes[v] * y[v, c] for v in videos) <= X] *)
Definition cap_constr (d : data) (y : dict (Z * Z) Var) (c : Z) : result Constr :=
  ts <- mapM (cap_term d y c) (range (V d)) ;;
  Ok {| cname := cap_cache c; lhs := quicksum ts; rhs := of_const (X d) |}.

(** [z[e, v, c] <= y[v, c]] *)
Definition link_constr (y : dict (Z * Z) Var) (z : dict (Z * Z * Z) Var)
  (k : Z * Z * Z) : result Constr :=
  let '(e, v, c) := k in
  zv <- PyDict.getitem z (e, v, c) ;;
  yv <- PyDict.getitem y (v, c) ;;
  Ok {| cname := link e v c; lhs := of_var zv; rhs := of_var yv |}.

(** [quicksum(z[e, v, c] for c in cache_list) <= 1] *)
Definition unique_constr (z : dict (Z * Z * Z) Var) (item : Z * Z * list Z)
  : result Constr :=
  let '(e, v, cache_list) := item in
  ts <- mapM (fun c => zv <- PyDict.getitem z (e, v, c) ;; Ok (1, zv)) cache_list ;;
  Ok {| cname := unique e v; lhs := quicksum ts; rhs := of_const 1 |}.

(** [z_gain[k] * z[k]] *)
Definition obj_term (zg : dict (Z * Z * Z) Z) (z : dict (Z * Z * Z) Var)
  (k : Z * Z * Z) : result (Z * Var) :=
  g <- PyDict.getitem zg k ;;
  zv <- PyDict.getitem z k ;;
  Ok (g, zv).

(** The builder returns the model and the tupledict [y]; it raises where
    a lookup does. *)
Definition build_model (d : data) (mip_gap : Q)
  : result (Model * dict (Z * Z) Var) :=
  let y := y_tupledict (V d) (C d) in
  st <- z_phase d ;;
  let z := z_tupledict (z_keys st) in
  caps <- mapM (cap_constr d y) (range (C d)) ;;
  links <- mapM (link_constr y z) (z_keys st) ;;
  uniqs <- mapM (unique_constr z) (ev_to_caches st) ;;
  obj <- mapM (obj_term (z_gain st) z) (z_keys st) ;;
  Ok ({| ModelName := "videos"%string;
         MIPGap := mip_gap;
         OutputFlag := 1;
         vars := map snd y ++ map snd z;
         constrs := caps ++ links ++ uniqs;
         objective := quicksum obj;
         ModelSense := MAXIMIZE |}, y).

(** ** What a constraint means *)

(** A value for every variable. *)
Definition assignment := Var -> Q.

(** The value of a linear expression. *)
Definition eval (a : assignment) (e : LinExpr) : Q :=
  fold_right (fun t acc => (inject_Z (fst t) * a (snd t) + acc)%Q)
             (inject_Z (constant e)) (terms e).

(** The assignment meets the constraint [lhs <= rhs]. *)
Definition satisfies (a : assignment) (k : Constr) : Prop :=
  (eval a (lhs k) <= eval a (rhs k))%Q.

(** The assignment meets every constraint of the model. *)
Definition feasible (a : assignment) (m : Model) : Prop :=
  Forall (satisfies a) (constrs m).

(** ** [write_solution] *)

(** [str(n)] for an integer. *)
Definition str (n : Z) : String.string :=
  DecimalString.NilZero.string_of_int (Z.to_int n).

(** [sep.join(l)] *)
Fixpoint join (sep : String.string) (l : list String.string) : String.string :=
  match l with
  | [] => ""%string
  | [s] => s
  | s :: r => String.append s (String.append sep (join sep r))
  end.

Definition newline : String.string := String.String "010"%char String.EmptyString.

(** A list comprehension with a condition that may raise. *)
Fixpoint filterM {A} (p : A -> result bool) (l : list A) : result (list A) :=
  match l with
  | [] => Ok []
  | x :: r =>
      b <- p x ;;
      ys <- filterM p r ;;
      Ok (if b then x :: ys else ys)
  end.

(** [y[v, c].X > 0.5], where [x] gives the value of each variable. *)
Definition stored (y : dict (Z * Z) Var) (x : assignment) (c v : Z) : result bool :=
  yv <- PyDict.getitem y (v, c) ;;
  Ok (negb (Qle_bool (x yv) (1 # 2))).

(** Body of [for c in caches]. *)
Definition plan_step (y : dict (Z * Z) Var) (x : assignment) (d : data)
  (plan : dict Z (list Z)) (c : Z) : result (dict Z (list Z)) :=
  vids <- filterM (stored y x c) (range (V d)) ;;
  Ok (match vids with
      | [] => plan
      | _ :: _ => PyDict.set plan c vids
      end).

Definition cache_to_videos (y : dict (Z * Z) Var) (x : assignment) (d : data)
  : result (dict Z (list Z)) :=
  foldM (plan_step y x d) (range (C d)) [].

Definition out_line (item : Z * list Z) : String.string :=
  let '(c, vids) := item in
  String.append (str c)
    (String.append " " (String.append (join " " (map str vids)) newline)).

(** The text written to [path_out]. *)
Definition write_solution (y : dict (Z * Z) Var) (x : assignment) (d : data)
  : result String.string :=
  plan <- cache_to_videos y x d ;;
  Ok (String.append (str (Z.of_nat (length plan)))
        (String.append newline (String.concat "" (map out_line plan)))).

(** ** [main] *)

(** What [model.optimize()] leaves behind: the number of solutions found
    and the value [.X] of every variable. *)
Record Solution : Type := {
  SolCount : Z;
  Xval : assignment
}.

(** The two files the program may write. *)
Record files : Type := {
  videos_mps : option Model;
  videos_out : option String.string
}.

Definition no_files : files := {| videos_mps := None; videos_out := None |}.

(** How a run ends: [main] returns, or an exception escapes it. *)
Inductive outcome : Type :=
| Returned (fs : files)
| Uncaught (e : exn) (fs : files).

Section Main.
(** The solver is a collaborator of the program. *)
Variable optimize : Model -> Solution.

Definition main (dataset : file) : outcome :=
  match read_instance dataset with
  | Raise e => Uncaught e no_files
  | Ok d =>
      match build_model d (5 # 1000) with
      | Raise e => Uncaught e no_files
      | Ok (model, y) =>
          let fs := {| videos_mps := Some model; videos_out := None |} in
          let sol := optimize model in
          if SolCount sol =? 0 then Returned fs
          else
            match write_solution y (Xval sol) d with
            | Raise e => Uncaught e fs
            | Ok text => Returned {| videos_mps := Some model; videos_out := Some text |}
            end
      end
  end.
End Main.

(** ** The pruning loop, in closed form *)

(** The reachable caches of an endpoint that beat the data centre. *)
Definition survivors (dc : Z) (cl : dict Z Z) : list (Z * Z) :=
  filter (fun it => negb (dc - snd it <=? 0)) cl.

(** What one iteration of the outer loop contributes. *)
Record row : Type := {
  row_e : Z;
  row_v : Z;
  row_n : Z;
  row_dc : Z;
  row_surv : list (Z * Z)
}.

Definition row_ev (r : row) : Z * Z := (row_e r, row_v r).

Definition row_keys (r : row) : list (Z * Z * Z) :=
  map (fun it => (row_e r, row_v r, fst it)) (row_surv r).

Definition row_gains (r : row) : dict (Z * Z * Z) Z :=
  map (fun it => ((row_e r, row_v r, fst it), row_n r * (row_dc r - snd it)))
      (row_surv r).

Definition group (e v : Z) (surv : list (Z * Z)) : dict (Z * Z) (list Z) :=
  match surv with
  | [] => []
  | _ :: _ => [((e, v), map fst surv)]
  end.

Definition row_group (r : row) : dict (Z * Z) (list Z) :=
  group (row_e r) (row_v r) (row_surv r).

Definition state_of (rs : list row) : zstate :=
  {| z_keys := flat_map row_keys rs;
     z_gain := flat_map row_gains rs;
     ev_to_caches := flat_map row_group rs |}.

Definition row_of (eps : list Endpoint) (item : Z * Z * Z) : result row :=
  let '(e, v, n_req) := item in
  ep <- list_getitem eps e ;;
  Ok {| row_e := e; row_v := v; row_n := n_req; row_dc := dc_latency ep;
        row_surv := survivors (dc_latency ep) (cache_latencies ep) |}.

Definition rows (d : data) : result (list row) :=
  mapM (row_of (endpoints d)) (requests d).

(** Well-formed dicts in an instance: what Python guarantees. *)
Definition dicts_ok (d : data) : Prop :=
  PyDict.ok (requests d) /\
  Forall (fun ep => PyDict.ok (cache_latencies ep)) (endpoints d).

(** ** The built model, in closed form *)

Definition cap_of (d : data) (c : Z) : Constr :=
  {| cname := cap_cache c;
     lhs := quicksum (map (fun v => (nth (Z.to_nat v) (video_sizes d) 0, y_var v c))
                          (range (V d)));
     rhs := of_const (X d) |}.

Definition link_of (k : Z * Z * Z) : Constr :=
  let '(e, v, c) := k in
  {| cname := link e v c; lhs := of_var (z_var e v c); rhs := of_var (y_var v c) |}.

Definition unique_of (item : Z * Z * list Z) : Constr :=
  let '(e, v, cs) := item in
  {| cname := unique e v;
     lhs := quicksum (map (fun c => (1, z_var e v c)) cs);
     rhs := of_const 1 |}.

Definition obj_of (item : Z * Z * Z * Z) : Z * Var := (snd item, z_of (fst item)).

Definition model_of (d : data) (mip_gap : Q) (rs : list row) : Model :=
  {| ModelName := "videos";
     MIPGap := mip_gap;
     OutputFlag := 1;
     vars := map y_of (list_prod (range (V d)) (range (C d)))
             ++ map z_of (flat_map row_keys rs);
     constrs := map (cap_of d) (range (C d))
                ++ map link_of (flat_map row_keys rs)
                ++ map unique_of (flat_map row_group rs);
     objective := quicksum (map obj_of (flat_map row_gains rs));
     ModelSense := MAXIMIZE |}.

(** Every listed [z] key has its [y] variable. *)
Definition y_covers (d : data) (ks : list (Z * Z * Z)) : Prop :=
  forall e v c, In (e, v, c) ks -> 0 <= v < V d /\ 0 <= c < C d.

(** Every video index has a size, as soon as a capacity constraint reads
    one. *)
Definition sizes_cover (d : data) : Prop :=
  0 < C d -> V d <= Z.of_nat (length (video_sizes d)).

(** ** Reading a model *)


Definition is_z (x : Var) : bool :=
  match x with y_var _ _ => false | z_var _ _ _ => true end.

Definition eqb {A} `{EqDec A} (x y : A) : bool :=
  if eq_dec x y then true else false.

(** The constraints of the model that carry a given name. *)
Definition constrs_named (n : CName) (m : Model) : list Constr :=
  filter (fun k => eqb (cname k) n) (constrs m).

(** The terms of an expression on a given variable. *)
Definition terms_of (x : Var) (ex : LinExpr) : list (Z * Var) :=
  filter (fun t => eqb (snd t) x) (terms ex).

(** The variable occurs in the constraint. *)
Definition mentions (x : Var) (k : Constr) : Prop :=
  In x (map snd (terms (lhs k))) \/ In x (map snd (terms (rhs k))).


(** ** Well-formed rows and instances *)

Definition rows_wf (rs : list row) : Prop :=
  NoDup (map row_ev rs) /\ Forall (fun r => NoDup (map fst (row_surv r))) rs.

(** Every index of the instance lies in its declared range. *)
Definition in_range (d : data) : Prop :=
  V d <= Z.of_nat (length (video_sizes d)) /\
  (forall e v n, In ((e, v), n) (requests d) ->
     0 <= e < Z.of_nat (length (endpoints d)) /\ 0 <= v < V d) /\
  (forall ep c lat, In ep (endpoints d) -> In (c, lat) (cache_latencies ep) ->
     0 <= c < C d).

(** ** A running example *)

(** Two videos, two endpoints, two caches; three request records, one with
    a zero count and one with a negative count. *)
Definition example_file : file :=
  [[2; 2; 3; 2; 10];
   [5; 8];
   [10; 2]; [0; 2]; [1; 12];
   [5; 1]; [1; 1];
   [0; 0; 3]; [1; 1; 0]; [1; 0; -2]].

Definition example_ep0 : Endpoint :=
  {| dc_latency := 10; cache_latencies := [(0, 2); (1, 12)] |}.

Definition example_ep1 : Endpoint :=
  {| dc_latency := 5; cache_latencies := [(1, 1)] |}.

Definition example_data : data :=
  {| V := 2; E := 2; R := 3; C := 2; X := 10;
     video_sizes := [5; 8];
     endpoints := [example_ep0; example_ep1];
     requests := [((0, 0), 3); ((1, 1), 0); ((0, 1), -2)] |}.

Definition example_model : Model :=
  {| ModelName := "videos";
     MIPGap := 5 # 1000;
     OutputFlag := 1;
     vars := [y_var 0 0; y_var 0 1; y_var 1 0; y_var 1 1;
              z_var 0 0 0; z_var 1 1 1; z_var 0 1 0];
     constrs :=
       [{| cname := cap_cache 0;
           lhs := quicksum [(5, y_var 0 0); (8, y_var 1 0)]; rhs := of_const 10 |};
        {| cname := cap_cache 1;
           lhs := quicksum [(5, y_var 0 1); (8, y_var 1 1)]; rhs := of_const 10 |};
        {| cname := link 0 0 0; lhs := of_var (z_var 0 0 0); rhs := of_var (y_var 0 0) |};
        {| cname := link 1 1 1; lhs := of_var (z_var 1 1 1); rhs := of_var (y_var 1 1) |};
        {| cname := link 0 1 0; lhs := of_var (z_var 0 1 0); rhs := of_var (y_var 1 0) |};
        {| cname := unique 0 0; lhs := quicksum [(1, z_var 0 0 0)]; rhs := of_const 1 |};
        {| cname := unique 1 1; lhs := quicksum [(1, z_var 1 1 1)]; rhs := of_const 1 |};
        {| cname := unique 0 1; lhs := quicksum [(1, z_var 0 1 0)]; rhs := of_const 1 |}];
     objective := quicksum [(24, z_var 0 0 0); (0, z_var 1 1 1); (-16, z_var 0 1 0)];
     ModelSense := MAXIMIZE |}.

(** ** Files that are structurally well formed *)

(** One endpoint block of the file: the data-centre latency and the
    [cache_id latency] lines that follow. *)
Record raw_endpoint : Type := {
  raw_dc : Z;
  raw_caches : list (Z * Z)
}.

(** The records of an instance file, before any aggregation: the request
    records are triples [(video_id, endpoint_id, request_count)] in file
    order. *)
Record raw_instance : Type := {
  raw_C : Z;
  raw_X : Z;
  raw_sizes : list Z;
  raw_endpoints : list raw_endpoint;
  raw_requests : list (Z * Z * Z)
}.

Definition cache_line (it : Z * Z) : list Z := [fst it; snd it].

Definition request_line (rec : Z * Z * Z) : list Z :=
  let '(v_id, e_id, n_req) := rec in [v_id; e_id; n_req].

Definition endpoint_lines (ep : raw_endpoint) : file :=
  [raw_dc ep; Z.of_nat (length (raw_caches ep))] :: map cache_line (raw_caches ep).

(** The file that lays the records out in the input format, its header
    carrying the true counts. *)
Definition render (r : raw_instance) : file :=
  [Z.of_nat (length (raw_sizes r)); Z.of_nat (length (raw_endpoints r));
   Z.of_nat (length (raw_requests r)); raw_C r; raw_X r]
  :: raw_sizes r
  :: flat_map endpoint_lines (raw_endpoints r)
  ++ map request_line (raw_requests r).

Definition cache_dict (l : list (Z * Z)) : dict Z Z :=
  fold_left (fun cl it => PyDict.set cl (fst it) (snd it)) l [].

Definition parse_endpoint (ep : raw_endpoint) : Endpoint :=
  {| dc_latency := raw_dc ep; cache_latencies := cache_dict (raw_caches ep) |}.

(** Summing the request records per [(endpoint, video)] key. *)
Definition aggregate (recs : list (Z * Z * Z)) : dict (Z * Z) Z :=
  fold_left add_request recs [].

(** The total of the counts of the records that name the pair [k]. *)
Definition count_for (k : Z * Z) (recs : list (Z * Z * Z)) : Z :=
  fold_right (fun rec acc =>
                let '(v_id, e_id, n_req) := rec in
                if eqb (e_id, v_id) k then n_req + acc else acc) 0 recs.

Definition parsed (r : raw_instance) : data :=
  {| V := Z.of_nat (length (raw_sizes r));
     E := Z.of_nat (length (raw_endpoints r));
     R := Z.of_nat (length (raw_requests r));
     C := raw_C r;
     X := raw_X r;
     video_sizes := raw_sizes r;
     endpoints := map parse_endpoint (raw_endpoints r);
     requests := aggregate (raw_requests r) |}.

(** ** Aggregation of request records *)

(** [requests[k] = requests.get(k, 0) + n] *)
Definition add_count (reqs : dict (Z * Z) Z) (k : Z * Z) (n : Z) : dict (Z * Z) Z :=
  PyDict.set reqs k (PyDict.get_default reqs k 0 + n).

(** ** The solution extractor, in closed form *)

(** The value of [y[v,c]] is above the threshold. *)
Definition above_half (x : assignment) (c v : Z) : bool :=
  negb (Qle_bool (x (y_var v c)) (1 # 2)).

Definition vids_of (x : assignment) (d : data) (c : Z) : list Z :=
  filter (above_half x c) (range (V d)).

Definition plan_entry (x : assignment) (d : data) (c : Z) : dict Z (list Z) :=
  match vids_of x d c with
  | [] => []
  | _ :: _ => [(c, vids_of x d c)]
  end.

Definition plan_of (x : assignment) (d : data) : dict Z (list Z) :=
  flat_map (plan_entry x d) (range (C d)).

Definition text_of (plan : dict Z (list Z)) : String.string :=
  String.append (str (Z.of_nat (length plan)))
    (String.append newline (String.concat "" (map out_line plan))).

(** ** Degenerate instances *)

(** The model of an instance without videos or without caches in which
    no triple survives: no variable, one empty capacity constraint per
    cache, an empty objective. *)
Definition vacuous_model (d : data) (gap : Q) : Model :=
  {| ModelName := "videos";
     MIPGap := gap;
     OutputFlag := 1;
     vars := [];
     constrs := map (fun c => {| cname := cap_cache c;
                                 lhs := quicksum [];
                                 rhs := of_const (X d) |}) (range (C d));
     objective := quicksum [];
     ModelSense := MAXIMIZE |}.

(** ** Solvers and further examples *)

(** A solver that reports one solution, every variable at 0. *)
Definition zero_solver (m : Model) : Solution :=
  {| SolCount := 1; Xval := fun _ => 0%Q |}.

(** A solver that reports one solution, every variable at 1. *)
Definition ones_solver (m : Model) : Solution :=
  {| SolCount := 1; Xval := fun _ => 1%Q |}.

(** A solver that finds no solution. *)
Definition failing_solver (m : Model) : Solution :=
  {| SolCount := 0; Xval := fun _ => 0%Q |}.

(** No video, two caches, no endpoint, no request. *)
Definition degenerate_file : file := [[0; 0; 0; 2; 10]; []].

Definition degenerate_data : data :=
  {| V := 0; E := 0; R := 0; C := 2; X := 10;
     video_sizes := []; endpoints := []; requests := [] |}.

Definition degenerate_model : Model :=
  {| ModelName := "videos";
     MIPGap := 5 # 1000;
     OutputFlag := 1;
     vars := [];
     constrs :=
       [{| cname := cap_cache 0; lhs := quicksum []; rhs := of_const 10 |};
        {| cname := cap_cache 1; lhs := quicksum []; rhs := of_const 10 |}];
     objective := quicksum [];
     ModelSense := MAXIMIZE |}.

(** One video, two endpoints, one cache.  The first endpoint lists cache 7,
    the first request names endpoint -2, the second names video 3. *)
Definition stray_file : file :=
  [[1; 2; 2; 1; 10];
   [5];
   [10; 2]; [0; 2]; [7; 20];
   [1; 1]; [0; 5];
   [0; -2; 3]; [3; 1; 4]].

Definition stray_data : data :=
  {| V := 1; E := 2; R := 2; C := 1; X := 10;
     video_sizes := [5];
     endpoints := [{| dc_latency := 10; cache_latencies := [(0, 2); (7, 20)] |};
                   {| dc_latency := 1; cache_latencies := [(0, 5)] |}];
     requests := [((-2, 0), 3); ((1, 3), 4)] |}.

Definition stray_model : Model :=
  {| ModelName := "videos";
     MIPGap := 5 # 1000;
     OutputFlag := 1;
     vars := [y_var 0 0; z_var (-2) 0 0];
     constrs :=
       [{| cname := cap_cache 0; lhs := quicksum [(5, y_var 0 0)]; rhs := of_const 10 |};
        {| cname := link (-2) 0 0;
           lhs := of_var (z_var (-2) 0 0); rhs := of_var (y_var 0 0) |};
        {| cname := unique (-2) 0;
           lhs := quicksum [(1, z_var (-2) 0 0)]; rhs := of_const 1 |}];
     objective := quicksum [(24, z_var (-2) 0 0)];
     ModelSense := MAXIMIZE |}.

(** ** Families of constraints, sizes, the zero assignment *)

Definition is_cap (k : Constr) : bool :=
  match cname k with cap_cache _ => true | _ => false end.

Definition is_link (k : Constr) : bool :=
  match cname k with link _ _ _ => true | _ => false end.

Definition is_unique (k : Constr) : bool :=
  match cname k with unique _ _ => true | _ => false end.

(** [video_sizes[v]] for an index known to be in range. *)
Definition size_of (d : data) (v : Z) : Z := nth (Z.to_nat v) (video_sizes d) 0.

(** The storage a list of videos takes. *)
Definition total_size (d : data) (vids : list Z) : Z :=
  fold_right Z.add 0 (map (size_of d) vids).

(** Every variable at 0: nothing stored, nothing served from a cache. *)
Definition zero_assignment : assignment := fun _ => 0%Q.

(** One video, one endpoint, one cache; the only request names video 3. *)
Definition lost_video_data : data :=
  {| V := 1; E := 1; R := 1; C := 1; X := 10;
     video_sizes := [5];
     endpoints := [{| dc_latency := 10; cache_latencies := [(0, 2)] |}];
     requests := [((0, 3), 4)] |}.

(** One video, one endpoint, one cache; the only request names endpoint 5. *)
Definition lost_endpoint_data : data :=
  {| V := 1; E := 1; R := 1; C := 1; X := 10;
     video_sizes := [5];
     endpoints := [{| dc_latency := 10; cache_latencies := [(0, 2)] |}];
     requests := [((5, 0), 4)] |}.

(** The values that store video 0 in cache 0 and serve the pair (0,0) from
    it. *)
Definition served_assignment : assignment :=
  fun x => if eqb x (z_var 0 0 0) then 1%Q
           else if eqb x (y_var 0 0) then 1%Q else 0%Q.

(** The values that store video 0 in cache 0 and nothing else. *)
Definition one_video_assignment : assignment :=
  fun x => if eqb x (y_var 0 0) then 1%Q else 0%Q.

(** ** Reading the output back *)

(** The pieces of a string between the occurrences of a separator. *)
Fixpoint split_on (sep : Ascii.ascii) (s : String.string) : list String.string :=
  match s with
  | String.EmptyString => [String.EmptyString]
  | String.String ch r =>
      if Ascii.eqb ch sep then String.EmptyString :: split_on sep r
      else match split_on sep r with
           | [] => [String.String ch String.EmptyString]
           | t :: ts => String.String ch t :: ts
           end
  end.

(** The character occurs in the string. *)
Fixpoint has_char (c : Ascii.ascii) (s : String.string) : bool :=
  match s with
  | String.EmptyString => false
  | String.String ch r => Ascii.eqb ch c || has_char c r
  end.

(** The integer a decimal token denotes, if it is one. *)
Definition int_of_str (s : String.string) : option Z :=
  option_map Z.of_int (DecimalString.NilZero.int_of_string s).

(** The lines of a text in which every line ends with a newline. *)
Definition lines_of (text : String.string) : list String.string :=
  removelast (split_on "010"%char text).

(** What a reader of the solution format finds in a text: for each line,
    the numbers between its spaces. *)
Definition read_back (text : String.string) : list (list (option Z)) :=
  map (fun l => map int_of_str (split_on " "%char l)) (lines_of text).

(** Values that store videos 0 and 1 in cache 1 and nothing in cache 0. *)
Definition cache_one_assignment : assignment :=
  fun x => if eqb x (y_var 0 1) then 1%Q
           else if eqb x (y_var 1 1) then 1%Q else 0%Q.

(** * Properties *)

(** ** The error monad and the loops *)

Lemma bind_Ok {A B} (r : result A) (k : A -> result B) (b : B) :
  bind r k = Ok b -> exists a, r = Ok a /\ k a = Ok b.
Proof. destruct r; simpl; [eauto | discriminate]. Qed.

Ltac inv_bind H :=
  let a := fresh "a" in
  let Ha := fresh "H" a in
  apply bind_Ok in H; destruct H as (a & Ha & H).

Lemma mapM_Forall2 {A B} (f : A -> result B) (l : list A) (r : list B) :
  mapM f l = Ok r -> Forall2 (fun x y => f x = Ok y) l r.
Proof.
  revert r; induction l as [| x l IH]; simpl; intros r H.
  - inversion H; constructor.
  - inv_bind H. inv_bind H. inversion H; subst. constructor; auto.
Qed.

Lemma mapM_map {A B} (f : A -> result B) (g : A -> B) (l : list A) :
  (forall x, In x l -> f x = Ok (g x)) -> mapM f l = Ok (map g l).
Proof.
  induction l as [| x l IH]; simpl; intros Hf; [reflexivity |].
  rewrite Hf by auto. simpl. rewrite IH by auto. reflexivity.
Qed.

(** ** [range] *)

Lemma In_range (n x : Z) : In x (range n) <-> 0 <= x < n.
Proof.
  unfold range. rewrite in_map_iff. split.
  - intros (k & <- & Hk). apply in_seq in Hk. lia.
  - intros Hx. exists (Z.to_nat x). split; [lia |]. apply in_seq. lia.
Qed.

Lemma length_range (n : Z) : length (range n) = Z.to_nat n.
Proof. unfold range. rewrite length_map, length_seq. reflexivity. Qed.

Lemma NoDup_range (n : Z) : NoDup (range n).
Proof.
  unfold range. apply Finite.Injective_map_NoDup; [| apply seq_NoDup].
  intros a b Hab. lia.
Qed.

(** ** Python lists and dicts *)

Lemma list_getitem_In {A} (l : list A) (i : Z) (a : A) :
  list_getitem l i = Ok a -> In a l.
Proof.
  unfold list_getitem.
  destruct (_ || _); [discriminate |].
  destruct (nth_error _ _) eqn:Hn; [| discriminate].
  intros Ha; inversion Ha; subst. eapply nth_error_In; eauto.
Qed.

Lemma list_getitem_nonneg {A} (l : list A) (i : Z) (dflt : A) :
  0 <= i < Z.of_nat (length l) ->
  list_getitem l i = Ok (nth (Z.to_nat i) l dflt).
Proof.
  intros Hi. unfold list_getitem.
  destruct (i <? 0) eqn:Hneg; [lia |].
  destruct (_ || _) eqn:Hout; [lia |].
  destruct (nth_error l (Z.to_nat i)) eqn:Hn.
  - erewrite nth_error_nth; eauto.
  - apply nth_error_None in Hn. lia.
Qed.

Lemma list_getitem_out {A} (l : list A) (i : Z) :
  Z.of_nat (length l) <= i -> list_getitem l i = Raise IndexError.
Proof.
  intros Hi. unfold list_getitem.
  destruct (i <? 0) eqn:Hneg; [lia |].
  destruct (_ || _) eqn:Hout; [reflexivity | lia].
Qed.

Section DictFacts.
Context {K W : Type} `{EqDec K}.
Implicit Types (d : dict K W) (k : K) (w : W).

Lemma get_None d k : PyDict.get d k = None <-> ~ In k (PyDict.keys d).
Proof.
  induction d as [| [k' w'] d IH]; simpl; [tauto |].
  destruct (eq_dec k k') as [-> | Hne].
  - split; [discriminate | tauto].
  - rewrite IH. split; [intros Hn [Hk | Hk]; [congruence | tauto] | tauto].
Qed.

Lemma get_In d k w : PyDict.get d k = Some w -> In (k, w) d.
Proof.
  induction d as [| [k' w'] d IH]; simpl; [discriminate |].
  destruct (eq_dec k k') as [-> | Hne]; [intros Hw; inversion Hw; auto | auto].
Qed.

Lemma In_get d k w : PyDict.ok d -> In (k, w) d -> PyDict.get d k = Some w.
Proof.
  unfold PyDict.ok.
  induction d as [| [k' w'] d IH]; simpl; [tauto |].
  intros Hnd Hin. inversion Hnd as [| ? ? Hk' Hnd']; subst.
  destruct (eq_dec k k') as [-> | Hne].
  - destruct Hin as [Heq | Hin]; [congruence |].
    exfalso. apply Hk'. change k' with (fst (k', w)). apply in_map; exact Hin.
  - destruct Hin as [Heq | Hin]; [congruence | auto].
Qed.

Lemma get_app d d' k :
  PyDict.get (d ++ d') k =
  match PyDict.get d k with Some w => Some w | None => PyDict.get d' k end.
Proof.
  induction d as [| [k' w'] d IH]; simpl; [reflexivity |].
  destruct (eq_dec k k'); auto.
Qed.

Lemma get_set d k k' w :
  PyDict.get (PyDict.set d k w) k' =
  if eq_dec k' k then Some w else PyDict.get d k'.
Proof.
  induction d as [| [k0 w0] d IH]; simpl.
  - destruct (eq_dec k' k); reflexivity.
  - destruct (eq_dec k k0) as [-> | Hne]; simpl.
    + destruct (eq_dec k' k0); reflexivity.
    + destruct (eq_dec k' k0) as [-> | Hne'].
      * destruct (eq_dec k0 k); [congruence | reflexivity].
      * exact IH.
Qed.

Lemma set_fresh d k w :
  ~ In k (PyDict.keys d) -> PyDict.set d k w = d ++ [(k, w)].
Proof.
  induction d as [| [k' w'] d IH]; simpl; intros Hk; [reflexivity |].
  destruct (eq_dec k k') as [-> | Hne]; [tauto |].
  rewrite IH; tauto.
Qed.

Lemma set_last d k w w' :
  ~ In k (PyDict.keys d) -> PyDict.set (d ++ [(k, w)]) k w' = d ++ [(k, w')].
Proof.
  induction d as [| [k0 w0] d IH]; simpl; intros Hk.
  - destruct (eq_dec k k); [reflexivity | congruence].
  - destruct (eq_dec k k0) as [-> | Hne]; [tauto |].
    rewrite IH; tauto.
Qed.

Lemma keys_set_present d k w :
  In k (PyDict.keys d) -> PyDict.keys (PyDict.set d k w) = PyDict.keys d.
Proof.
  induction d as [| [k0 w0] d IH]; simpl; [tauto |].
  intros Hk. destruct (eq_dec k k0) as [-> | Hne]; simpl; [reflexivity |].
  f_equal. apply IH. destruct Hk; [congruence | assumption].
Qed.

Lemma ok_set d k w : PyDict.ok d -> PyDict.ok (PyDict.set d k w).
Proof.
  intros Hd. unfold PyDict.ok.
  destruct (in_dec eq_dec k (PyDict.keys d)) as [Hin | Hout].
  - rewrite keys_set_present; assumption.
  - rewrite set_fresh by assumption. unfold PyDict.keys.
    rewrite map_app. simpl. apply NoDup_app; [exact Hd | repeat constructor; simpl; tauto |].
    intros a Ha [<- | []]. exact (Hout Ha).
Qed.
End DictFacts.

(** ** The pruning loop, in closed form *)

Lemma survivors_app dc cl1 cl2 :
  survivors dc (cl1 ++ cl2) = survivors dc cl1 ++ survivors dc cl2.
Proof. apply filter_app. Qed.

Lemma survivors_incl dc cl c :
  In c (map fst (survivors dc cl)) -> In c (map fst cl).
Proof.
  rewrite !in_map_iff. intros (it & Hc & Hin).
  apply filter_In in Hin. exists it; tauto.
Qed.

Lemma z_inner_fold e v n dc cl zk zg evc :
  NoDup (map fst cl) ->
  (forall c, ~ In (e, v, c) (PyDict.keys zg)) ->
  ~ In (e, v) (PyDict.keys evc) ->
  fold_left (z_inner e v n dc) cl
    {| z_keys := zk; z_gain := zg; ev_to_caches := evc |} =
  {| z_keys := zk ++ map (fun it => (e, v, fst it)) (survivors dc cl);
     z_gain := zg ++ map (fun it => ((e, v, fst it), n * (dc - snd it))) (survivors dc cl);
     ev_to_caches := evc ++ group e v (survivors dc cl) |}.
Proof.
  intros Hnd Hzg Hevc.
  induction cl as [| [c lat] cl IH] using rev_ind.
  - simpl. rewrite !app_nil_r. reflexivity.
  - rewrite map_app in Hnd. simpl in Hnd.
    apply NoDup_remove in Hnd. rewrite app_nil_r in Hnd. destruct Hnd as [Hnd Hc].
    rewrite fold_left_app, IH by assumption. simpl.
    rewrite survivors_app.
    replace (survivors dc [(c, lat)])
      with (if dc - lat <=? 0 then [] else [(c, lat)])
      by (unfold survivors; simpl; destruct (dc - lat <=? 0); reflexivity).
    destruct (dc - lat <=? 0) eqn:Hsave; simpl.
    + rewrite !app_nil_r. reflexivity.
    + rewrite !map_app. simpl. rewrite !app_assoc. f_equal.
      * apply set_fresh. unfold PyDict.keys. rewrite map_app, map_map. simpl.
        intros Hin. apply in_app_or in Hin. destruct Hin as [Hin | Hin].
        -- exact (Hzg c Hin).
        -- apply in_map_iff in Hin. destruct Hin as (it & Heq & Hin).
           inversion Heq; subst. apply Hc.
           apply survivors_incl with (dc := dc). apply in_map. exact Hin.
      * unfold setdefault_append.
        destruct (survivors dc cl) as [| s ss] eqn:Hs; simpl.
        -- rewrite app_nil_r.
           assert (Hg : PyDict.get evc (e, v) = None) by (apply get_None; exact Hevc).
           rewrite Hg. apply set_fresh; exact Hevc.
        -- rewrite get_app.
           assert (Hg : PyDict.get evc (e, v) = None) by (apply get_None; exact Hevc).
           rewrite Hg. simpl.
           destruct (eq_dec (e, v) (e, v)) as [_ | Hne]; [| congruence].
           rewrite set_last by exact Hevc. rewrite map_app. reflexivity.
Qed.

Lemma keys_row_gains rs k :
  In k (PyDict.keys (flat_map row_gains rs)) ->
  In (fst k) (map row_ev rs).
Proof.
  unfold PyDict.keys. rewrite in_map_iff. intros ([k' g] & Hk & Hin). simpl in Hk; subst k'.
  apply in_flat_map in Hin. destruct Hin as (r & Hr & Hin).
  unfold row_gains in Hin. apply in_map_iff in Hin. destruct Hin as (it & Heq & _).
  inversion Heq; subst. simpl. apply in_map_iff. exists r; auto.
Qed.

Lemma keys_row_group rs k :
  In k (PyDict.keys (flat_map row_group rs)) -> In k (map row_ev rs).
Proof.
  unfold PyDict.keys. rewrite in_map_iff. intros ([k' g] & Hk & Hin). simpl in Hk; subst k'.
  apply in_flat_map in Hin. destruct Hin as (r & Hr & Hin).
  unfold row_group, group in Hin. destruct (row_surv r); [destruct Hin |].
  destruct Hin as [Heq | []]. inversion Heq; subst.
  apply in_map_iff. exists r; auto.
Qed.

Lemma state_of_snoc rs r :
  state_of (rs ++ [r]) =
  {| z_keys := z_keys (state_of rs) ++ row_keys r;
     z_gain := z_gain (state_of rs) ++ row_gains r;
     ev_to_caches := ev_to_caches (state_of rs) ++ row_group r |}.
Proof. unfold state_of. simpl. rewrite !flat_map_app. simpl. rewrite !app_nil_r. reflexivity. Qed.

Lemma z_outer_rows eps reqs :
  Forall (fun ep => PyDict.ok (cache_latencies ep)) eps ->
  forall rs0,
    NoDup (map fst reqs) ->
    (forall k, In k (map fst reqs) -> ~ In k (map row_ev rs0)) ->
    foldM (z_outer eps) reqs (state_of rs0) =
    (rs <- mapM (row_of eps) reqs ;; Ok (state_of (rs0 ++ rs))).
Proof.
  intros Heps. induction reqs as [| [[e v] n] reqs IH]; intros rs0 Hnd Hfresh.
  - simpl. rewrite app_nil_r. reflexivity.
  - simpl in Hnd. inversion Hnd as [| ? ? Hev Hnd']; subst.
    simpl. destruct (list_getitem eps e) as [ep | err] eqn:Hep; simpl; [| reflexivity].
    assert (Hok : PyDict.ok (cache_latencies ep)).
    { rewrite Forall_forall in Heps. apply Heps. eapply list_getitem_In; eauto. }
    unfold state_of at 1. rewrite z_inner_fold.
    + set (r := {| row_e := e; row_v := v; row_n := n; row_dc := dc_latency ep;
                   row_surv := survivors (dc_latency ep) (cache_latencies ep) |}).
      transitivity (foldM (z_outer eps) reqs (state_of (rs0 ++ [r]))).
      { rewrite state_of_snoc. reflexivity. }
      rewrite IH.
      * destruct (mapM (row_of eps) reqs); simpl; [| reflexivity].
        rewrite <- app_assoc. reflexivity.
      * exact Hnd'.
      * intros k Hk Hin. rewrite map_app in Hin. apply in_app_or in Hin.
        destruct Hin as [Hin | [Heq | []]].
        -- apply (Hfresh k); simpl; auto.
        -- subst k. apply Hev. exact Hk.
    + exact Hok.
    + intros c Hin. apply keys_row_gains in Hin. simpl in Hin.
      apply (Hfresh (e, v)); simpl; auto.
    + intros Hin. apply keys_row_group in Hin.
      apply (Hfresh (e, v)); simpl; auto.
Qed.

(** The pruning loop computes exactly the rows, and fails exactly when an
    endpoint lookup does. *)
Lemma z_phase_rows (d : data) :
  dicts_ok d ->
  z_phase d = (rs <- rows d ;; Ok (state_of rs)).
Proof.
  intros [Hreq Heps]. unfold z_phase, rows.
  change z_init with (state_of []).
  rewrite z_outer_rows; auto.
Qed.

(** ** The built model, in closed form *)

Lemma getitem_tupledict {K} `{EqDec K} (f : K -> Var) (l : list K) (k : K) :
  PyDict.getitem (map (fun k => (k, f k)) l) k =
  if mem k l then Ok (f k) else Raise KeyError.
Proof.
  unfold PyDict.getitem, mem.
  destruct (in_dec eq_dec k l) as [Hin | Hout].
  - induction l as [| a l IH]; simpl in *; [tauto |].
    destruct (eq_dec k a) as [-> | Hne]; [reflexivity |].
    apply IH. destruct Hin; [congruence | assumption].
  - induction l as [| a l IH]; simpl in *; [reflexivity |].
    destruct (eq_dec k a) as [-> | Hne]; [tauto |].
    apply IH. tauto.
Qed.

Lemma mem_true {A} `{EqDec A} (x : A) (l : list A) : mem x l = true <-> In x l.
Proof. unfold mem. destruct (in_dec eq_dec x l); split; auto; discriminate. Qed.

Lemma getitem_y nv nc v c :
  PyDict.getitem (y_tupledict nv nc) (v, c) =
  if mem (v, c) (list_prod (range nv) (range nc)) then Ok (y_var v c) else Raise KeyError.
Proof. unfold y_tupledict. rewrite getitem_tupledict. reflexivity. Qed.

Lemma getitem_z ks e v c :
  PyDict.getitem (z_tupledict ks) (e, v, c) =
  if mem (e, v, c) ks then Ok (z_var e v c) else Raise KeyError.
Proof. unfold z_tupledict. rewrite getitem_tupledict. reflexivity. Qed.

Lemma rows_ev eps reqs rs :
  mapM (row_of eps) reqs = Ok rs -> map row_ev rs = map fst reqs.
Proof.
  intros H; apply mapM_Forall2 in H.
  induction H as [| [[e v] n] r reqs rs Hr _ IH]; simpl; [reflexivity |].
  f_equal; [| exact IH].
  inv_bind Hr. inversion Hr; subst. reflexivity.
Qed.

Lemma rows_surv eps reqs rs :
  Forall (fun ep => PyDict.ok (cache_latencies ep)) eps ->
  mapM (row_of eps) reqs = Ok rs ->
  Forall (fun r => NoDup (map fst (row_surv r))) rs.
Proof.
  intros Heps H; apply mapM_Forall2 in H.
  induction H as [| [[e v] n] r reqs rs Hr _ IH]; constructor; [| exact IH].
  inv_bind Hr. inversion Hr; subst. simpl.
  rewrite Forall_forall in Heps. apply list_getitem_In in Ha. apply Heps in Ha.
  unfold survivors. clear - Ha. unfold PyDict.ok, PyDict.keys in Ha.
  induction (cache_latencies a) as [| it cl IH]; simpl; [constructor |].
  inversion Ha as [| ? ? Hit Hcl]; subst.
  destruct (negb _); simpl; [| auto].
  constructor; [| auto]. intros Hin. apply Hit.
  apply (survivors_incl (dc_latency a)). exact Hin.
Qed.

Lemma keys_flat_row_gains rs :
  PyDict.keys (flat_map row_gains rs) = flat_map row_keys rs.
Proof.
  unfold PyDict.keys. induction rs as [| r rs IH]; simpl; [reflexivity |].
  rewrite map_app, IH. f_equal. unfold row_gains, row_keys. rewrite map_map. reflexivity.
Qed.

Lemma In_row_keys rs e v c :
  In (e, v, c) (flat_map row_keys rs) <->
  exists r, In r rs /\ row_ev r = (e, v) /\ In c (map fst (row_surv r)).
Proof.
  rewrite in_flat_map. split.
  - intros (r & Hr & Hin). exists r. split; [exact Hr |].
    unfold row_keys in Hin. apply in_map_iff in Hin. destruct Hin as (it & Heq & Hin).
    inversion Heq; subst. split; [reflexivity | apply in_map; exact Hin].
  - intros (r & Hr & Hev & Hin). exists r. split; [exact Hr |].
    unfold row_ev in Hev. inversion Hev; subst.
    unfold row_keys. apply in_map_iff in Hin. destruct Hin as (it & Heq & Hin).
    apply in_map_iff. exists it. subst c. auto.
Qed.

Lemma NoDup_row_keys rs :
  NoDup (map row_ev rs) ->
  Forall (fun r => NoDup (map fst (row_surv r))) rs ->
  NoDup (flat_map row_keys rs).
Proof.
  induction rs as [| r rs IH]; simpl; intros Hev Hs; [constructor |].
  inversion Hev as [| ? ? Hr Hev']; subst. inversion Hs as [| ? ? Hsr Hs']; subst.
  apply NoDup_app.
  - unfold row_keys. rewrite <- (map_map fst (fun c => (row_e r, row_v r, c))).
    apply Finite.Injective_map_NoDup; [| exact Hsr].
    intros a b Hab; congruence.
  - auto.
  - intros [[e v] c] Hin1 Hin2.
    apply In_row_keys in Hin2. destruct Hin2 as (r' & Hr' & Hev2 & _).
    unfold row_keys in Hin1. apply in_map_iff in Hin1. destruct Hin1 as (it & Heq & _).
    inversion Heq; subst. apply Hr. apply in_map_iff. exists r'. split; [| exact Hr'].
    rewrite Hev2. reflexivity.
Qed.

Lemma mapM_In_Ok {A B} (f : A -> result B) (l : list A) (r : list B) (x : A) :
  mapM f l = Ok r -> In x l -> exists y, f x = Ok y.
Proof.
  intros H; apply mapM_Forall2 in H.
  induction H as [| a b l r Hab _ IH]; simpl; [tauto |].
  intros [<- | Hin]; eauto.
Qed.

Lemma In_y_keys nv nc v c :
  In (v, c) (list_prod (range nv) (range nc)) <-> 0 <= v < nv /\ 0 <= c < nc.
Proof. rewrite in_prod_iff, !In_range. tauto. Qed.

Lemma In_row_group rs e v cs :
  In (e, v, cs) (flat_map row_group rs) ->
  exists r, In r rs /\ row_ev r = (e, v) /\ cs = map fst (row_surv r) /\ row_surv r <> [].
Proof.
  rewrite in_flat_map. intros (r & Hr & Hin). exists r. split; [exact Hr |].
  unfold row_group, group in Hin. destruct (row_surv r) as [| s ss] eqn:Hs; [destruct Hin |].
  destruct Hin as [Heq | []]. inversion Heq; subst. repeat split. discriminate.
Qed.

Lemma gains_ok rs :
  NoDup (flat_map row_keys rs) -> PyDict.ok (flat_map row_gains rs).
Proof. unfold PyDict.ok. rewrite keys_flat_row_gains. auto. Qed.

Lemma rows_NoDup_keys d rs :
  dicts_ok d -> rows d = Ok rs -> NoDup (flat_map row_keys rs).
Proof.
  intros [Hreq Heps] Hrows. apply NoDup_row_keys.
  - unfold rows in Hrows. erewrite rows_ev by eauto. exact Hreq.
  - eapply rows_surv; eauto.
Qed.

Lemma caps_closed (d : data) :
  sizes_cover d ->
  mapM (cap_constr d (y_tupledict (V d) (C d))) (range (C d)) =
  Ok (map (cap_of d) (range (C d))).
Proof.
  intros Hsz. apply mapM_map.
  intros c Hc. apply In_range in Hc. unfold cap_constr, cap_of.
  rewrite (mapM_map _ (fun v => (nth (Z.to_nat v) (video_sizes d) 0, y_var v c))).
  - reflexivity.
  - intros v Hv. apply In_range in Hv. unfold cap_term.
    rewrite (list_getitem_nonneg _ _ 0) by (unfold sizes_cover in Hsz; lia). simpl.
    rewrite getitem_y.
    replace (mem _ _) with true; [reflexivity |].
    symmetry. apply mem_true. apply In_y_keys. lia.
Qed.

(** When the instance keeps every index in range, the builder returns the
    closed form. *)
Theorem build_model_closed (d : data) (gap : Q) (rs : list row) :
  dicts_ok d ->
  rows d = Ok rs ->
  sizes_cover d ->
  y_covers d (flat_map row_keys rs) ->
  build_model d gap = Ok (model_of d gap rs, y_tupledict (V d) (C d)).
Proof.
  intros Hok Hrows Hsz Hy.
  pose proof (rows_NoDup_keys d rs Hok Hrows) as Hnd.
  unfold build_model. rewrite z_phase_rows by exact Hok. rewrite Hrows. simpl.
  rewrite (caps_closed d Hsz).
  simpl.
  rewrite (mapM_map (link_constr _ _) link_of).
  2:{ intros [[e v] c] Hk. unfold link_constr, link_of.
      rewrite getitem_z. replace (mem _ _) with true by (symmetry; apply mem_true; exact Hk).
      simpl. rewrite getitem_y.
      replace (mem _ _) with true; [reflexivity |].
      symmetry. apply mem_true. apply In_y_keys. eapply Hy; eauto. }
  simpl.
  rewrite (mapM_map (unique_constr _) unique_of).
  2:{ intros [[e v] cs] Hk. unfold unique_constr, unique_of.
      rewrite (mapM_map _ (fun c => (1, z_var e v c))); [reflexivity |].
      intros c Hc. rewrite getitem_z.
      replace (mem _ _) with true; [reflexivity |].
      symmetry. apply mem_true. apply In_row_group in Hk.
      destruct Hk as (r & Hr & Hev & -> & _).
      apply In_row_keys. exists r; auto. }
  simpl.
  rewrite (mapM_map (obj_term _ _) (fun k => (PyDict.get_default (flat_map row_gains rs) k 0, z_of k))).
  2:{ intros [[e v] c] Hk. unfold obj_term, PyDict.getitem, PyDict.get_default.
      destruct (PyDict.get (flat_map row_gains rs) (e, v, c)) eqn:Hg.
      - simpl. fold (PyDict.getitem (z_tupledict (flat_map row_keys rs)) (e, v, c)).
        rewrite getitem_z.
        replace (mem _ _) with true; [reflexivity |].
        symmetry. apply mem_true. exact Hk.
      - apply get_None in Hg. rewrite keys_flat_row_gains in Hg. tauto. }
  simpl. unfold model_of. do 3 f_equal.
  - unfold y_tupledict, z_tupledict. rewrite !map_map. reflexivity.
  - f_equal. rewrite <- keys_flat_row_gains. unfold PyDict.keys. rewrite map_map.
    apply map_ext_in. intros [k g] Hin. unfold obj_of, PyDict.get_default. simpl.
    assert (Hg : PyDict.get (flat_map row_gains rs) k = Some g)
      by (apply In_get; [apply gains_ok; exact Hnd | exact Hin]).
    rewrite Hg. reflexivity.
Qed.

(** Conversely, a model that was built is the closed form, and the indices
    it used were in range. *)
Theorem build_model_inv (d : data) (gap : Q) (m : Model) (y : dict (Z * Z) Var) :
  dicts_ok d ->
  build_model d gap = Ok (m, y) ->
  exists rs,
    rows d = Ok rs /\ sizes_cover d /\ y_covers d (flat_map row_keys rs) /\
    m = model_of d gap rs /\ y = y_tupledict (V d) (C d).
Proof.
  intros Hok H. pose proof H as H0.
  unfold build_model in H. rewrite z_phase_rows in H by exact Hok.
  apply bind_Ok in H as (st & Hst & H).
  apply bind_Ok in Hst as (rs & Hrows & Hst). inversion Hst; subst st; clear Hst.
  apply bind_Ok in H as (caps & Hcaps & H).
  apply bind_Ok in H as (links & Hlinks & _).
  assert (Hsz : sizes_cover d).
  { intros HC. destruct (Z_le_gt_dec (V d) (Z.of_nat (length (video_sizes d)))) as [Hle | Hgt];
      [exact Hle | exfalso].
    destruct (mapM_In_Ok _ _ _ 0 Hcaps) as [k Hk]; [apply In_range; lia |].
    unfold cap_constr in Hk. apply bind_Ok in Hk as (ts & Hts & _).
    destruct (mapM_In_Ok _ _ _ (Z.of_nat (length (video_sizes d))) Hts) as [t Ht];
      [apply In_range; lia |].
    unfold cap_term in Ht. rewrite list_getitem_out in Ht by lia. discriminate. }
  assert (Hy : y_covers d (flat_map row_keys rs)).
  { intros e v c Hin. destruct (mapM_In_Ok _ _ _ _ Hlinks Hin) as [k Hk].
    unfold link_constr in Hk. apply bind_Ok in Hk as (zv & _ & Hk).
    apply bind_Ok in Hk as (yv & Hyv & _).
    rewrite getitem_y in Hyv. destruct (mem _ _) eqn:Hm; [| discriminate].
    apply mem_true in Hm. apply In_y_keys in Hm. exact Hm. }
  exists rs. rewrite (build_model_closed d gap rs Hok Hrows Hsz Hy) in H0.
  inversion H0; subst. auto.
Qed.

(** ** Filters and selections *)

Lemma eqb_refl {A} `{EqDec A} (x : A) : eqb x x = true.
Proof. unfold eqb. destruct (eq_dec x x); congruence. Qed.

Lemma eqb_true {A} `{EqDec A} (x y : A) : eqb x y = true <-> x = y.
Proof. unfold eqb. destruct (eq_dec x y); split; auto; discriminate. Qed.

Lemma eqb_false {A} `{EqDec A} (x y : A) : eqb x y = false <-> x <> y.
Proof. unfold eqb. destruct (eq_dec x y); split; auto; try discriminate; tauto. Qed.

Lemma filter_none {A} (p : A -> bool) (l : list A) :
  (forall x, In x l -> p x = false) -> filter p l = [].
Proof.
  induction l as [| a l IH]; simpl; intros Hp; [reflexivity |].
  rewrite Hp by auto. apply IH. auto.
Qed.

Lemma filter_all {A} (p : A -> bool) (l : list A) :
  (forall x, In x l -> p x = true) -> filter p l = l.
Proof.
  induction l as [| a l IH]; simpl; intros Hp; [reflexivity |].
  rewrite Hp by auto. f_equal. apply IH. auto.
Qed.

(** Among images of a duplicate-free list, a test that singles out one
    element keeps exactly its image. *)
Lemma filter_map_one {A B} (p : B -> bool) (F : A -> B) (l : list A) (x : A) :
  NoDup l -> In x l ->
  (forall a, In a l -> p (F a) = true <-> a = x) ->
  filter p (map F l) = [F x].
Proof.
  induction l as [| a l IH]; simpl; intros Hnd Hin Hp; [tauto |].
  inversion Hnd as [| ? ? Ha Hnd']; subst.
  destruct Hin as [-> | Hin].
  - replace (p (F x)) with true by (symmetry; apply Hp; auto).
    f_equal. apply filter_none.
    intros b Hb. apply in_map_iff in Hb. destruct Hb as (a & <- & Hin).
    destruct (p (F a)) eqn:Hpa; [| reflexivity].
    apply Hp in Hpa; [subst; tauto | auto].
  - destruct (p (F a)) eqn:Hpa.
    + apply Hp in Hpa; [subst; tauto | auto].
    + apply IH; auto.
Qed.

Lemma flat_map_nil {A B} (f : A -> list B) (l : list A) :
  (forall a, In a l -> f a = []) -> flat_map f l = [].
Proof.
  induction l as [| a l IH]; simpl; intros Hf; [reflexivity |].
  rewrite Hf by auto. apply IH. auto.
Qed.



(** ** Facts about the closed form *)

Lemma rows_wf_of d rs : dicts_ok d -> rows d = Ok rs -> rows_wf rs.
Proof.
  intros [Hreq Heps] Hrows. split.
  - unfold rows in Hrows. erewrite rows_ev by eauto. exact Hreq.
  - eapply rows_surv; eauto.
Qed.

Lemma NoDup_fst_unique {K W} (l : list (K * W)) k w w' :
  NoDup (map fst l) -> In (k, w) l -> In (k, w') l -> w = w'.
Proof.
  induction l as [| [k0 w0] l IH]; simpl; intros Hnd H1 H2; [tauto |].
  inversion Hnd as [| ? ? Hk Hnd']; subst.
  destruct H1 as [H1 | H1]; destruct H2 as [H2 | H2].
  - congruence.
  - inversion H1; subst. exfalso. apply Hk. change k with (fst (k, w')). apply in_map; auto.
  - inversion H2; subst. exfalso. apply Hk. change k with (fst (k, w)). apply in_map; auto.
  - auto.
Qed.

Lemma row_unique rs r r' :
  NoDup (map row_ev rs) -> In r rs -> In r' rs -> row_ev r = row_ev r' -> r = r'.
Proof.
  induction rs as [| a rs IH]; simpl; intros Hnd H1 H2 Hev; [tauto |].
  inversion Hnd as [| ? ? Ha Hnd']; subst.
  destruct H1 as [-> | H1]; destruct H2 as [-> | H2]; auto.
  - exfalso. apply Ha. rewrite Hev. apply in_map; auto.
  - exfalso. apply Ha. rewrite <- Hev. apply in_map; auto.
Qed.

Section ClosedForm.
Variables (d : data) (gap : Q) (rs : list row).
Hypothesis Hwf : rows_wf rs.

Lemma z_of_inj k k' : z_of k = z_of k' -> k = k'.
Proof. destruct k as [[e v] c], k' as [[e' v'] c']. simpl. congruence. Qed.

Lemma In_z_vars e v c :
  In (z_var e v c) (vars (model_of d gap rs)) <-> In (e, v, c) (flat_map row_keys rs).
Proof.
  unfold model_of; simpl. rewrite in_app_iff, !in_map_iff. split.
  - intros [([v' c'] & Heq & _) | (k & Heq & Hin)]; [discriminate |].
    apply (z_of_inj k (e, v, c)) in Heq. subst. exact Hin.
  - intros Hin. right. exists (e, v, c). auto.
Qed.

Lemma In_y_vars v c :
  In (y_var v c) (vars (model_of d gap rs)) <-> 0 <= v < V d /\ 0 <= c < C d.
Proof.
  unfold model_of; simpl. rewrite in_app_iff, !in_map_iff. split.
  - intros [([v' c'] & Heq & Hin) | ([[e' v'] c'] & Heq & _)]; [| discriminate].
    inversion Heq; subst. apply In_y_keys. exact Hin.
  - intros Hr. left. exists (v, c). split; [reflexivity | apply In_y_keys; exact Hr].
Qed.


Lemma z_vars_closed :
  filter is_z (vars (model_of d gap rs)) = map z_of (flat_map row_keys rs).
Proof.
  unfold model_of; simpl. rewrite filter_app.
  rewrite filter_none, filter_all; [reflexivity | |].
  - intros x Hx. apply in_map_iff in Hx. destruct Hx as ([[e v] c] & <- & _). reflexivity.
  - intros x Hx. apply in_map_iff in Hx. destruct Hx as ([v c] & <- & _). reflexivity.
Qed.

Lemma objective_vars :
  map snd (terms (objective (model_of d gap rs))) = filter is_z (vars (model_of d gap rs)).
Proof.
  rewrite z_vars_closed. unfold model_of; simpl.
  rewrite <- keys_flat_row_gains. unfold PyDict.keys. rewrite !map_map. reflexivity.
Qed.

Lemma NoDup_keys : NoDup (flat_map row_keys rs).
Proof. destruct Hwf. apply NoDup_row_keys; assumption. Qed.

Lemma objective_term k g :
  In (k, g) (flat_map row_gains rs) ->
  terms_of (z_of k) (objective (model_of d gap rs)) = [(g, z_of k)].
Proof.
  intros Hin. unfold terms_of, model_of; simpl.
  pose proof NoDup_keys as Hnd. rewrite <- keys_flat_row_gains in Hnd.
  apply (filter_map_one (fun t => eqb (snd t) (z_of k)) obj_of) with (x := (k, g)).
  - eapply NoDup_map_inv. exact Hnd.
  - exact Hin.
  - intros [k' g'] Hin'. unfold obj_of; simpl. rewrite eqb_true. split.
    + intros Heq. apply z_of_inj in Heq. subst k'.
      f_equal. eapply NoDup_fst_unique; eauto.
    + intros Heq; inversion Heq; reflexivity.
Qed.

Lemma objective_no_term e v c :
  ~ In (e, v, c) (flat_map row_keys rs) ->
  terms_of (z_var e v c) (objective (model_of d gap rs)) = [].
Proof.
  intros Hout. unfold terms_of, model_of; simpl. apply filter_none.
  intros t Ht. apply in_map_iff in Ht. destruct Ht as ([k g] & <- & Hin).
  unfold obj_of; simpl. apply eqb_false. intros Heq.
  apply (z_of_inj k (e, v, c)) in Heq. subst k. apply Hout.
  rewrite <- keys_flat_row_gains. unfold PyDict.keys.
  change (e, v, c) with (fst ((e, v, c), g)). apply in_map. exact Hin.
Qed.

Lemma mentions_z k e v c :
  In k (constrs (model_of d gap rs)) -> mentions (z_var e v c) k ->
  In (e, v, c) (flat_map row_keys rs).
Proof.
  unfold model_of; simpl. rewrite !in_app_iff, !in_map_iff.
  intros [(c0 & <- & _) | [([[e0 v0] c0] & <- & Hin) | ([[e0 v0] cs] & <- & Hin)]];
    unfold mentions; simpl.
  - rewrite map_map; simpl. intros [Hm | []].
    apply in_map_iff in Hm. destruct Hm as (? & Heq & _). discriminate.
  - intros [[Heq | []] | [Heq | []]]; [| discriminate].
    inversion Heq; subst. exact Hin.
  - rewrite map_map; simpl. intros [Hm | []].
    apply in_map_iff in Hm. destruct Hm as (c' & Heq & Hc'). inversion Heq; subst.
    apply In_row_group in Hin. destruct Hin as (r & Hr & Hev & -> & _).
    apply In_row_keys. exists r; auto.
Qed.

Lemma link_named e v c :
  In (e, v, c) (flat_map row_keys rs) ->
  constrs_named (link e v c) (model_of d gap rs) = [link_of (e, v, c)].
Proof.
  intros Hin. unfold constrs_named, model_of; simpl. rewrite !filter_app.
  rewrite (filter_none _ (map (cap_of d) _)).
  2:{ intros k Hk. apply in_map_iff in Hk. destruct Hk as (c0 & <- & _). reflexivity. }
  rewrite (filter_none _ (map unique_of _)).
  2:{ intros k Hk. apply in_map_iff in Hk. destruct Hk as ([[e0 v0] cs] & <- & _). reflexivity. }
  rewrite app_nil_r. simpl.
  apply (filter_map_one (fun k => eqb (cname k) (link e v c)) link_of) with (x := (e, v, c));
    auto using NoDup_keys.
  intros [[e0 v0] c0] _. simpl. rewrite eqb_true. split; congruence.
Qed.




Lemma link_named_inv k e v c :
  In k (constrs (model_of d gap rs)) -> cname k = link e v c ->
  In (e, v, c) (flat_map row_keys rs).
Proof.
  unfold model_of; simpl. rewrite !in_app_iff, !in_map_iff.
  intros [(c0 & <- & _) | [([[e0 v0] c0] & <- & Hin) | ([[e0 v0] cs] & <- & Hin)]];
    simpl; intros Heq; inversion Heq; subst. exact Hin.
Qed.
End ClosedForm.

(** ** From the instance to the rows *)

Lemma Forall2_In_l {A B} (P : A -> B -> Prop) (l : list A) (r : list B) (x : A) :
  Forall2 P l r -> In x l -> exists y, In y r /\ P x y.
Proof.
  induction 1 as [| a b l r Hab _ IH]; simpl; [tauto |].
  intros [<- | Hin]; [eauto |]. destruct (IH Hin) as (y & Hy & Hp). eauto.
Qed.

Lemma rows_lookup d rs e v n ep :
  rows d = Ok rs ->
  PyDict.get (requests d) (e, v) = Some n ->
  list_getitem (endpoints d) e = Ok ep ->
  In {| row_e := e; row_v := v; row_n := n; row_dc := dc_latency ep;
        row_surv := survivors (dc_latency ep) (cache_latencies ep) |} rs.
Proof.
  intros Hrows Hn Hep. apply get_In in Hn.
  apply mapM_Forall2 in Hrows.
  destruct (Forall2_In_l _ _ _ _ Hrows Hn) as (r & Hr & Hrow).
  unfold row_of in Hrow. rewrite Hep in Hrow. simpl in Hrow.
  inversion Hrow; subst. exact Hr.
Qed.

Lemma survivors_In dc (cl : dict Z Z) c lat :
  PyDict.ok cl -> PyDict.get cl c = Some lat ->
  (In c (map fst (survivors dc cl)) <-> 0 < dc - lat) /\
  (0 < dc - lat -> In (c, lat) (survivors dc cl)).
Proof.
  intros Hok Hget. apply get_In in Hget.
  assert (Hin : 0 < dc - lat -> In (c, lat) (survivors dc cl)).
  { intros Hs. apply filter_In. split; [exact Hget |]. simpl.
    destruct (dc - lat <=? 0) eqn:Hle; [lia | reflexivity]. }
  split; [split |]; auto.
  - intros Hc. apply in_map_iff in Hc. destruct Hc as ([c' lat'] & Heq & Hf).
    simpl in Heq; subst c'. apply filter_In in Hf. destruct Hf as [Hf Hs]. simpl in Hs.
    assert (lat' = lat) by (eapply NoDup_fst_unique; eauto). subst.
    destruct (dc - lat <=? 0) eqn:Hle; [discriminate | lia].
  - intros Hs. change c with (fst (c, lat)). apply in_map. auto.
Qed.

Lemma key_survives d rs e v n ep c lat :
  dicts_ok d ->
  rows d = Ok rs ->
  PyDict.get (requests d) (e, v) = Some n ->
  list_getitem (endpoints d) e = Ok ep ->
  PyDict.get (cache_latencies ep) c = Some lat ->
  (In (e, v, c) (flat_map row_keys rs) <-> 0 < dc_latency ep - lat) /\
  (0 < dc_latency ep - lat ->
   In ((e, v, c), n * (dc_latency ep - lat)) (flat_map row_gains rs)).
Proof.
  intros Hok Hrows Hn Hep Hlat.
  pose proof (rows_wf_of d rs Hok Hrows) as [Hev _].
  assert (Hr := Hn). eapply rows_lookup in Hr; [| exact Hrows | exact Hep].
  assert (Hcl : PyDict.ok (cache_latencies ep)).
  { destruct Hok as [_ Heps]. rewrite Forall_forall in Heps.
    apply Heps. eapply list_getitem_In; eauto. }
  destruct (survivors_In (dc_latency ep) _ c lat Hcl Hlat) as [Hiff Hin].
  split; [split |].
  - intros Hk. apply In_row_keys in Hk. destruct Hk as (r' & Hr' & Hev' & Hc).
    assert (r' = {| row_e := e; row_v := v; row_n := n; row_dc := dc_latency ep;
                    row_surv := survivors (dc_latency ep) (cache_latencies ep) |})
      by (apply (row_unique rs); auto).
    subst r'. apply Hiff. exact Hc.
  - intros Hs. apply In_row_keys. eexists. split; [exact Hr |].
    split; [reflexivity |]. simpl. apply Hiff. exact Hs.
  - intros Hs. apply in_flat_map. eexists. split; [exact Hr |].
    unfold row_gains; simpl. apply in_map_iff. exists (c, lat). split; [reflexivity | auto].
Qed.

Lemma Forall2_In_r {A B} (P : A -> B -> Prop) (l : list A) (r : list B) (y : B) :
  Forall2 P l r -> In y r -> exists x, In x l /\ P x y.
Proof.
  induction 1 as [| a b l r Hab _ IH]; simpl; [tauto |].
  intros [<- | Hin]; [eauto |]. destruct (IH Hin) as (x & Hx & Hp). eauto.
Qed.

(** Every key of the rows comes from a request pair and a reachable cache
    that beats the data centre. *)
Lemma key_origin d rs e v c :
  dicts_ok d ->
  rows d = Ok rs ->
  In (e, v, c) (flat_map row_keys rs) ->
  exists n ep lat,
    PyDict.get (requests d) (e, v) = Some n /\
    list_getitem (endpoints d) e = Ok ep /\
    PyDict.get (cache_latencies ep) c = Some lat /\
    0 < dc_latency ep - lat.
Proof.
  intros [Hreq Heps] Hrows Hk.
  apply In_row_keys in Hk. destruct Hk as (r & Hr & Hev & Hc).
  apply mapM_Forall2 in Hrows.
  destruct (Forall2_In_r _ _ _ _ Hrows Hr) as ([[e0 v0] n] & Hitem & Hrow).
  unfold row_of in Hrow. apply bind_Ok in Hrow. destruct Hrow as (ep & Hep & Hrow).
  inversion Hrow; subst r; clear Hrow. unfold row_ev in Hev; simpl in Hev.
  inversion Hev; subst e0 v0. simpl in Hc.
  apply in_map_iff in Hc. destruct Hc as ([c0 lat] & Heq & Hin). simpl in Heq; subst c0.
  apply filter_In in Hin. destruct Hin as [Hin Hs]. simpl in Hs.
  exists n, ep, lat. split; [apply In_get; assumption |]. split; [exact Hep |].
  split.
  - apply In_get; [| exact Hin]. rewrite Forall_forall in Heps.
    apply Heps. eapply list_getitem_In; eauto.
  - destruct (dc_latency ep - lat <=? 0) eqn:Hle; [discriminate | lia].
Qed.

(** What the builder does with one reachable cache of one request pair. *)
Lemma z_created d gap m y e v n ep c lat :
  dicts_ok d ->
  build_model d gap = Ok (m, y) ->
  PyDict.get (requests d) (e, v) = Some n ->
  list_getitem (endpoints d) e = Ok ep ->
  PyDict.get (cache_latencies ep) c = Some lat ->
  (In (z_var e v c) (vars m) <-> 0 < dc_latency ep - lat) /\
  (0 < dc_latency ep - lat ->
   terms_of (z_var e v c) (objective m) = [(n * (dc_latency ep - lat), z_var e v c)]) /\
  (dc_latency ep - lat <= 0 ->
   terms_of (z_var e v c) (objective m) = [] /\
   forall k, In k (constrs m) -> ~ mentions (z_var e v c) k).
Proof.
  intros Hok Hb Hn Hep Hlat.
  destruct (build_model_inv d gap m y Hok Hb) as (rs & Hrows & _ & _ & -> & _).
  pose proof (rows_wf_of d rs Hok Hrows) as Hwf.
  destruct (key_survives d rs e v n ep c lat Hok Hrows Hn Hep Hlat) as [Hiff Hgain].
  split; [| split].
  - rewrite In_z_vars. exact Hiff.
  - intros Hs. apply (objective_term d gap rs Hwf (e, v, c)). auto.
  - intros Hs. assert (Hout : ~ In (e, v, c) (flat_map row_keys rs)) by (rewrite Hiff; lia).
    split; [apply objective_no_term; exact Hout |].
    intros k Hk Hm. apply Hout. eapply mentions_z; eauto.
Qed.

(** An endpoint index outside [-E, E) stops the builder in the pruning
    loop. *)
Lemma list_getitem_far {A} (l : list A) (i : Z) :
  i < - Z.of_nat (length l) \/ Z.of_nat (length l) <= i ->
  list_getitem l i = Raise IndexError.
Proof.
  intros Hi. unfold list_getitem.
  destruct (i <? 0) eqn:Hneg; destruct (_ || _) eqn:Hout; try reflexivity; lia.
Qed.

Lemma list_getitem_exn {A} (l : list A) (i : Z) (e : exn) :
  list_getitem l i = Raise e -> e = IndexError.
Proof.
  unfold list_getitem. destruct (_ || _); [congruence |].
  destruct (nth_error _ _); congruence.
Qed.

Lemma z_outer_raises eps reqs :
  forall st,
    (exists e v n, In ((e, v), n) reqs /\ list_getitem eps e = Raise IndexError) ->
    foldM (z_outer eps) reqs st = Raise IndexError.
Proof.
  induction reqs as [| [[e0 v0] n0] reqs IH]; intros st (e & v & n & Hin & He);
    [destruct Hin |].
  simpl. destruct (list_getitem eps e0) as [ep | err] eqn:Hep; simpl.
  - apply IH. destruct Hin as [Heq | Hin]; [congruence |]. eauto.
  - apply list_getitem_exn in Hep. congruence.
Qed.

(** X8: a request pair whose endpoint index lies outside [-E, E) makes the
    builder fail with [IndexError] in the pruning loop, before any
    constraint is added. *)
Theorem stray_endpoint_raises (d : data) (gap : Q) e v n :
  In ((e, v), n) (requests d) ->
  e < - Z.of_nat (length (endpoints d)) \/ Z.of_nat (length (endpoints d)) <= e ->
  build_model d gap = Raise IndexError.
Proof.
  intros Hin He. unfold build_model, z_phase.
  rewrite z_outer_raises; [reflexivity |].
  exists e, v, n. split; [exact Hin | apply list_getitem_far; exact He].
Qed.

(** ** The running example *)

Example read_example : read_instance example_file = Ok example_data.
Proof. reflexivity. Qed.

Example build_example :
  build_model example_data (5 # 1000) =
  Ok (example_model, y_tupledict 2 2).
Proof. reflexivity. Qed.

Lemma example_dicts_ok : dicts_ok example_data.
Proof.
  split; [| repeat constructor]; unfold PyDict.ok; simpl;
    repeat constructor; simpl; intuition congruence.
Defined.

(** ** The formulation builder *)

(** C1: for a request pair [(e,v)] of the aggregated map and a cache [c]
    of that endpoint's [cache_latencies], the built model has the variable
    [z[e,v,c]] exactly when [save = dc_latency - lat] is positive; a created
    variable has the single objective term [n_req * save]; a pruned triple
    has no objective term and occurs in no constraint; the objective is a
    maximisation whose terms range over exactly the [z] variables. *)
Theorem C1_pruning_rule d gap m y e v n ep c lat :
  dicts_ok d ->
  build_model d gap = Ok (m, y) ->
  PyDict.get (requests d) (e, v) = Some n ->
  list_getitem (endpoints d) e = Ok ep ->
  PyDict.get (cache_latencies ep) c = Some lat ->
  let save := dc_latency ep - lat in
  (In (z_var e v c) (vars m) <-> 0 < save) /\
  (0 < save -> terms_of (z_var e v c) (objective m) = [(n * save, z_var e v c)]) /\
  (save <= 0 ->
   terms_of (z_var e v c) (objective m) = [] /\
   forall k, In k (constrs m) -> ~ mentions (z_var e v c) k) /\
  ModelSense m = MAXIMIZE /\
  constant (objective m) = 0 /\
  map snd (terms (objective m)) = filter is_z (vars m) /\
  (forall e' v' c',
     In (z_var e' v' c') (vars m) ->
     exists n' ep' lat',
       PyDict.get (requests d) (e', v') = Some n' /\
       list_getitem (endpoints d) e' = Ok ep' /\
       PyDict.get (cache_latencies ep') c' = Some lat' /\
       0 < dc_latency ep' - lat').
Proof.
  intros Hok Hb Hn Hep Hlat save.
  destruct (z_created d gap m y e v n ep c lat Hok Hb Hn Hep Hlat) as (Hiff & Hpos & Hneg).
  destruct (build_model_inv d gap m y Hok Hb) as (rs & Hrows & _ & _ & -> & _).
  split; [exact Hiff |]. split; [exact Hpos |]. split; [exact Hneg |].
  split; [reflexivity |]. split; [reflexivity |]. split; [apply objective_vars |].
  intros e' v' c' Hz. apply In_z_vars in Hz.
  apply (key_origin d rs e' v' c' Hok Hrows Hz).
Qed.

(** C10: pruning looks at the sign of [save] only: a request pair whose
    aggregated count is zero or negative still gets its [z[e,v,c]] for every
    reachable cache with positive [save], with the objective coefficient
    [n_req * save], which is then zero or negative. *)
Theorem C10_nonpositive_count_kept d gap m y e v n ep c lat :
  dicts_ok d ->
  build_model d gap = Ok (m, y) ->
  PyDict.get (requests d) (e, v) = Some n ->
  n <= 0 ->
  list_getitem (endpoints d) e = Ok ep ->
  PyDict.get (cache_latencies ep) c = Some lat ->
  0 < dc_latency ep - lat ->
  In (z_var e v c) (vars m) /\
  terms_of (z_var e v c) (objective m) =
    [(n * (dc_latency ep - lat), z_var e v c)] /\
  n * (dc_latency ep - lat) <= 0.
Proof.
  intros Hok Hb Hn Hle Hep Hlat Hs.
  destruct (z_created d gap m y e v n ep c lat Hok Hb Hn Hep Hlat) as (Hiff & Hpos & _).
  split; [apply Hiff; exact Hs |]. split; [apply Hpos; exact Hs | nia].
Qed.


(** C3: every [z[e,v,c]] of the built model has exactly one constraint
    named [link e v c], which is [z[e,v,c] <= y[v,c]] on a [y] variable of
    the model; every link constraint belongs to a [z] variable of the model;
    an assignment with [z[e,v,c] = 1] and [y[v,c] = 0] is not feasible. *)
Theorem C3_linking d gap m y e v c :
  dicts_ok d ->
  build_model d gap = Ok (m, y) ->
  In (z_var e v c) (vars m) ->
  constrs_named (link e v c) m =
    [{| cname := link e v c; lhs := of_var (z_var e v c); rhs := of_var (y_var v c) |}] /\
  In (y_var v c) (vars m) /\
  (forall k e' v' c', In k (constrs m) -> cname k = link e' v' c' ->
     In (z_var e' v' c') (vars m)) /\
  (forall a : assignment,
     (a (z_var e v c) == 1)%Q -> (a (y_var v c) == 0)%Q -> ~ feasible a m).
Proof.
  intros Hok Hb Hz.
  destruct (build_model_inv d gap m y Hok Hb) as (rs & Hrows & _ & Hy & -> & _).
  pose proof (rows_wf_of d rs Hok Hrows) as Hwf.
  apply In_z_vars in Hz.
  pose proof (link_named d gap rs Hwf e v c Hz) as Hlink.
  split; [exact Hlink |].
  split; [apply In_y_vars; apply (Hy e v c Hz) |].
  split.
  - intros k e' v' c' Hk Hname. apply In_z_vars. eapply link_named_inv; eauto.
  - intros a Haz Hay Hfeas.
    assert (Hin : In (link_of (e, v, c)) (constrs (model_of d gap rs))).
    { assert (Hf : In (link_of (e, v, c)) (constrs_named (link e v c) (model_of d gap rs)))
        by (rewrite Hlink; left; reflexivity).
      apply filter_In in Hf. tauto. }
    unfold feasible in Hfeas. rewrite Forall_forall in Hfeas.
    apply Hfeas in Hin. unfold satisfies, eval in Hin. simpl in Hin.
    rewrite Haz, Hay in Hin. revert Hin. apply Qlt_not_le. reflexivity.
Qed.


(** *** The theorems at the running example *)

Lemma C1_pruning_rule_witness :
  In (z_var 0 0 0) (vars example_model) /\
  terms_of (z_var 0 0 0) (objective example_model) = [(3 * (10 - 2), z_var 0 0 0)] /\
  map snd (terms (objective example_model)) = filter is_z (vars example_model).
Proof.
  destruct (C1_pruning_rule example_data (5 # 1000) example_model (y_tupledict 2 2)
              0 0 3 example_ep0 0 2
              example_dicts_ok eq_refl eq_refl eq_refl eq_refl)
    as (Hiff & Hpos & _ & _ & _ & Hobj & _).
  split; [apply Hiff; reflexivity |].
  split; [apply Hpos; reflexivity | exact Hobj].
Defined.

Lemma C10_nonpositive_count_kept_witness :
  In (z_var 0 1 0) (vars example_model) /\
  terms_of (z_var 0 1 0) (objective example_model) = [(-2 * (10 - 2), z_var 0 1 0)] /\
  -2 * (10 - 2) <= 0.
Proof.
  apply (C10_nonpositive_count_kept example_data (5 # 1000) example_model (y_tupledict 2 2)
           0 1 (-2) example_ep0 0 2 example_dicts_ok eq_refl eq_refl).
  - discriminate.
  - reflexivity.
  - reflexivity.
  - reflexivity.
Defined.


Lemma C3_linking_witness :
  constrs_named (link 0 1 0) example_model =
    [{| cname := link 0 1 0; lhs := of_var (z_var 0 1 0); rhs := of_var (y_var 1 0) |}] /\
  ~ feasible (fun x => if eqb x (z_var 0 1 0) then 1%Q else 0%Q) example_model.
Proof.
  destruct (C3_linking example_data (5 # 1000) example_model (y_tupledict 2 2) 0 1 0
              example_dicts_ok eq_refl)
    as (Hlink & _ & _ & Hinf).
  - simpl. tauto.
  - split; [exact Hlink |]. apply Hinf; reflexivity.
Defined.


(** ** Files that are structurally well formed *)

Lemma read_caches_lines (l : list (Z * Z)) :
  forall (cl : dict Z Z) (rest : file),
    read_caches (length l) cl (map cache_line l ++ rest) =
    Ok (fold_left (fun cl it => PyDict.set cl (fst it) (snd it)) l cl, rest).
Proof.
  induction l as [| [c lat] l IH]; intros cl rest; simpl; [reflexivity |].
  unfold rbind at 1. simpl. unfold rbind at 1. simpl. apply IH.
Qed.

Lemma read_endpoints_lines (eps : list raw_endpoint) :
  forall (acc : list Endpoint) (rest : file),
    read_endpoints (length eps) acc (flat_map endpoint_lines eps ++ rest) =
    Ok (acc ++ map parse_endpoint eps, rest).
Proof.
  induction eps as [| ep eps IH]; intros acc rest; simpl.
  - rewrite app_nil_r. reflexivity.
  - unfold rbind at 1. simpl. unfold rbind at 1. simpl.
    unfold rbind at 1. rewrite Nat2Z.id, <- app_assoc, read_caches_lines.
    rewrite IH, <- app_assoc. reflexivity.
Qed.

Lemma read_requests_lines (recs : list (Z * Z * Z)) :
  forall (acc : dict (Z * Z) Z) (rest : file),
    read_requests (length recs) acc (map request_line recs ++ rest) =
    Ok (fold_left add_request recs acc, rest).
Proof.
  induction recs as [| [[v e] n] recs IH]; intros acc rest; simpl; [reflexivity |].
  unfold rbind at 1. simpl. unfold rbind at 1. simpl. apply IH.
Qed.

(** On a structurally well-formed file the reader returns the instance;
    nothing is asked of the indices the records carry. *)
Lemma read_instance_render (r : raw_instance) :
  read_instance (render r) = Ok (parsed r).
Proof.
  unfold read_instance, render.
  unfold rbind at 1. simpl. unfold rbind at 1. simpl.
  unfold rbind at 1. simpl. unfold rbind at 1. simpl.
  rewrite Z.eqb_refl. simpl.
  unfold rbind at 1. rewrite Nat2Z.id, read_endpoints_lines.
  unfold rbind at 1. rewrite Nat2Z.id.
  rewrite <- (app_nil_r (map request_line (raw_requests r))), read_requests_lines.
  reflexivity.
Qed.

(** ** Aggregation of request records *)

Lemma add_request_count reqs v e n :
  add_request reqs (v, e, n) = add_count reqs (e, v) n.
Proof. reflexivity. Qed.

Section SetFacts.
Context {K W : Type} `{EqDec K}.
Implicit Types (d : dict K W) (k : K) (w : W).

Lemma set_set_same d k w w' :
  PyDict.set (PyDict.set d k w) k w' = PyDict.set d k w'.
Proof.
  induction d as [| [k0 w0] d IH]; simpl.
  - destruct (eq_dec k k); [reflexivity | congruence].
  - destruct (eq_dec k k0) as [-> | Hne]; simpl.
    + destruct (eq_dec k0 k0); [reflexivity | congruence].
    + destruct (eq_dec k k0); [congruence |]. rewrite IH. reflexivity.
Qed.

Lemma set_set_comm d k k' w w' :
  k <> k' -> In k (PyDict.keys d) ->
  PyDict.set (PyDict.set d k' w') k w = PyDict.set (PyDict.set d k w) k' w'.
Proof.
  intros Hne. induction d as [| [k0 w0] d IH]; simpl; [tauto |].
  intros Hin.
  destruct (eq_dec k' k0) as [-> | Hk']; destruct (eq_dec k k0) as [-> | Hk]; simpl.
  - congruence.
  - destruct (eq_dec k k0); [congruence |].
    destruct (eq_dec k0 k0); [reflexivity | congruence].
  - destruct (eq_dec k0 k0); [| congruence].
    destruct (eq_dec k' k0); [congruence | reflexivity].
  - destruct (eq_dec k k0); [congruence |].
    destruct (eq_dec k' k0); [congruence |].
    rewrite IH; [reflexivity |]. destruct Hin; [congruence | assumption].
Qed.

Lemma In_keys_set d k k' w :
  In k (PyDict.keys d) -> In k (PyDict.keys (PyDict.set d k' w)).
Proof.
  induction d as [| [k0 w0] d IH]; simpl; [tauto |].
  destruct (eq_dec k' k0); simpl; tauto.
Qed.

Lemma In_keys_set_same d k w : In k (PyDict.keys (PyDict.set d k w)).
Proof.
  induction d as [| [k0 w0] d IH]; simpl; [auto |].
  destruct (eq_dec k k0) as [-> | Hne]; simpl; auto.
Qed.
End SetFacts.

Lemma add_count_twice reqs k a b :
  add_count (add_count reqs k a) k b = add_count reqs k (a + b).
Proof.
  unfold add_count, PyDict.get_default. rewrite get_set, set_set_same.
  destruct (eq_dec k k); [| congruence]. f_equal. lia.
Qed.

Lemma add_count_comm reqs k k' a b :
  In k (PyDict.keys reqs) ->
  add_count (add_count reqs k' a) k b = add_count (add_count reqs k b) k' a.
Proof.
  intros Hin. destruct (eq_dec k k') as [<- | Hne].
  - rewrite !add_count_twice. f_equal. lia.
  - unfold add_count, PyDict.get_default. rewrite !get_set.
    destruct (eq_dec k k'); [congruence |].
    destruct (eq_dec k' k); [congruence |].
    apply set_set_comm; assumption.
Qed.

(** Once a key is in the map, a later record for it may be counted at any
    earlier moment. *)
Lemma add_count_late recs :
  forall reqs k b,
    In k (PyDict.keys reqs) ->
    add_count (fold_left add_request recs reqs) k b =
    fold_left add_request recs (add_count reqs k b).
Proof.
  induction recs as [| [[v e] n] recs IH]; intros reqs k b Hin; cbn [fold_left];
    [reflexivity |].
  rewrite IH by (rewrite add_request_count; apply In_keys_set; exact Hin).
  rewrite !add_request_count. rewrite add_count_comm by exact Hin. reflexivity.
Qed.

Lemma count_for_cons k v e n recs :
  count_for k ((v, e, n) :: recs) =
  if eqb (e, v) k then n + count_for k recs else count_for k recs.
Proof. reflexivity. Qed.

(** Duplicate keys add up. *)
Lemma fold_add_request_sum recs :
  forall reqs k,
    PyDict.get_default (fold_left add_request recs reqs) k 0 =
    PyDict.get_default reqs k 0 + count_for k recs.
Proof.
  induction recs as [| [[v e] n] recs IH]; intros reqs k.
  - simpl. lia.
  - cbn [fold_left]. rewrite IH, count_for_cons, add_request_count.
    unfold add_count. unfold PyDict.get_default at 1. rewrite get_set.
    destruct (eqb (e, v) k) eqn:Hek.
    + apply eqb_true in Hek. subst k.
      destruct (eq_dec (e, v) (e, v)); [lia | congruence].
    + apply eqb_false in Hek.
      destruct (eq_dec k (e, v)); [congruence |].
      fold (PyDict.get_default reqs k 0). lia.
Qed.

Lemma aggregate_sum recs k :
  PyDict.get_default (aggregate recs) k 0 = count_for k recs.
Proof. unfold aggregate. rewrite fold_add_request_sum. reflexivity. Qed.

(** Splitting a record in two, the second part anywhere later in the
    file, leaves the aggregated map as it was, order included. *)
Lemma aggregate_split l1 l2 l3 v e n1 n2 :
  aggregate (l1 ++ (v, e, n1) :: l2 ++ (v, e, n2) :: l3) =
  aggregate (l1 ++ (v, e, n1 + n2) :: l2 ++ l3).
Proof.
  unfold aggregate. rewrite !fold_left_app. cbn [fold_left].
  rewrite !fold_left_app. cbn [fold_left].
  f_equal. rewrite !add_request_count.
  rewrite add_count_late by (apply In_keys_set_same).
  rewrite add_count_twice. reflexivity.
Qed.

(** The builder reads every field of the instance but [R]. *)
Lemma build_model_ext d d' gap :
  V d = V d' -> C d = C d' -> X d = X d' ->
  video_sizes d = video_sizes d' ->
  endpoints d = endpoints d' ->
  requests d = requests d' ->
  build_model d gap = build_model d' gap.
Proof.
  destruct d, d'; simpl. intros; subst. reflexivity.
Qed.

(** C5: the aggregated count of a pair is the sum of the counts of its
    records.  Take an instance file and replace one request record
    [(v,e,n1+n2)] by the two records [(v,e,n1)] and [(v,e,n2)], the second
    anywhere after the first (next to it when [l2] is empty).  Both files
    are read, the aggregated request maps are equal, and the builder returns
    the same result on both. *)
Theorem C5_split_record c x sizes eps l1 l2 l3 v e n1 n2 gap :
  let whole := {| raw_C := c; raw_X := x; raw_sizes := sizes; raw_endpoints := eps;
                  raw_requests := l1 ++ (v, e, n1 + n2) :: l2 ++ l3 |} in
  let split := {| raw_C := c; raw_X := x; raw_sizes := sizes; raw_endpoints := eps;
                  raw_requests := l1 ++ (v, e, n1) :: l2 ++ (v, e, n2) :: l3 |} in
  exists d d',
    read_instance (render whole) = Ok d /\
    read_instance (render split) = Ok d' /\
    (forall k, PyDict.get_default (requests d) k 0 = count_for k (raw_requests whole)) /\
    requests d' = requests d /\
    build_model d' gap = build_model d gap.
Proof.
  intros whole split. exists (parsed whole), (parsed split).
  split; [apply read_instance_render |].
  split; [apply read_instance_render |].
  split; [intros k; apply aggregate_sum |].
  assert (Hreq : requests (parsed split) = requests (parsed whole))
    by (apply aggregate_split).
  split; [exact Hreq |].
  apply build_model_ext; try reflexivity. exact Hreq.
Qed.

(** The split of the first record of the running example. *)
Example split_example :
  aggregate [(0, 0, 1); (1, 1, 0); (0, 0, 2); (1, 0, -2)] =
  aggregate [(0, 0, 3); (1, 1, 0); (1, 0, -2)].
Proof. reflexivity. Qed.

(** ** The reader checks no index *)

(** C8, as the code has it: on every structurally well-formed file the
    reader returns the instance, with the cache latencies and the request
    counts stored under whatever endpoint, video or cache index the records
    carry; no index is compared with [E], [V] or [C]. *)
Theorem C8_reader_checks_structure_only (r : raw_instance) :
  read_instance (render r) =
  Ok {| V := Z.of_nat (length (raw_sizes r));
        E := Z.of_nat (length (raw_endpoints r));
        R := Z.of_nat (length (raw_requests r));
        C := raw_C r;
        X := raw_X r;
        video_sizes := raw_sizes r;
        endpoints := map parse_endpoint (raw_endpoints r);
        requests := aggregate (raw_requests r) |}.
Proof. apply read_instance_render. Qed.

(** ** What the reader guarantees *)

Lemma rbind_Ok {A B} (m : reader A) (k : A -> reader B) (f f' : file) (b : B) :
  rbind m k f = Ok (b, f') ->
  exists a f1, m f = Ok (a, f1) /\ k a f1 = Ok (b, f').
Proof.
  unfold rbind. destruct (m f) as [[a f1] | e]; [eauto | discriminate].
Qed.

Lemma lift_Ok {A} (r : result A) (f f' : file) (a : A) :
  lift r f = Ok (a, f') -> r = Ok a /\ f' = f.
Proof. unfold lift. destruct r; intros Heq; inversion Heq; auto. Qed.

Lemma read_caches_ok (n : nat) :
  forall cl f cl' f',
    PyDict.ok cl -> read_caches n cl f = Ok (cl', f') -> PyDict.ok cl'.
Proof.
  induction n as [| n IH]; simpl; intros cl f cl' f' Hok Hr.
  - inversion Hr; subst. exact Hok.
  - apply rbind_Ok in Hr. destruct Hr as (l & f1 & _ & Hr).
    apply rbind_Ok in Hr. destruct Hr as ([c lat] & f2 & _ & Hr).
    eapply IH; [| exact Hr]. apply ok_set. exact Hok.
Qed.

Lemma read_endpoints_ok (n : nat) :
  forall eps f eps' f',
    Forall (fun ep => PyDict.ok (cache_latencies ep)) eps ->
    read_endpoints n eps f = Ok (eps', f') ->
    Forall (fun ep => PyDict.ok (cache_latencies ep)) eps'.
Proof.
  induction n as [| n IH]; simpl; intros eps f eps' f' Hok Hr.
  - inversion Hr; subst. exact Hok.
  - apply rbind_Ok in Hr. destruct Hr as (l & f1 & _ & Hr).
    apply rbind_Ok in Hr. destruct Hr as ([dc k] & f2 & _ & Hr).
    apply rbind_Ok in Hr. destruct Hr as (cl & f3 & Hcl & Hr).
    eapply IH; [| exact Hr]. apply Forall_app. split; [exact Hok |].
    constructor; [| constructor]. simpl.
    eapply read_caches_ok; [| exact Hcl]. constructor.
Qed.

Lemma read_requests_ok (n : nat) :
  forall reqs f reqs' f',
    PyDict.ok reqs -> read_requests n reqs f = Ok (reqs', f') -> PyDict.ok reqs'.
Proof.
  induction n as [| n IH]; simpl; intros reqs f reqs' f' Hok Hr.
  - inversion Hr; subst. exact Hok.
  - apply rbind_Ok in Hr. destruct Hr as (l & f1 & _ & Hr).
    apply rbind_Ok in Hr. destruct Hr as ([[v e] k] & f2 & _ & Hr).
    eapply IH; [| exact Hr]. unfold add_request. apply ok_set. exact Hok.
Qed.

(** An instance that was read has proper dicts and as many sizes as
    videos. *)
Lemma read_instance_ok (f : file) (d : data) :
  read_instance f = Ok d ->
  dicts_ok d /\ V d = Z.of_nat (length (video_sizes d)).
Proof.
  unfold read_instance.
  destruct (rbind _ _ f) as [[d0 f0] | e] eqn:Hr; [| discriminate].
  intros Heq; inversion Heq; subst d0; clear Heq.
  apply rbind_Ok in Hr. destruct Hr as (l & f1 & _ & Hr).
  apply rbind_Ok in Hr. destruct Hr as ([[[[v e] r] c] x] & f2 & _ & Hr).
  apply rbind_Ok in Hr. destruct Hr as (sizes & f3 & _ & Hr).
  apply rbind_Ok in Hr. destruct Hr as ([] & f4 & Hassert & Hr).
  apply rbind_Ok in Hr. destruct Hr as (eps & f5 & Heps & Hr).
  apply rbind_Ok in Hr. destruct Hr as (reqs & f6 & Hreqs & Hr).
  inversion Hr; subst; clear Hr. simpl.
  apply lift_Ok in Hassert. destruct Hassert as [Hassert _].
  destruct (Z.of_nat (length sizes) =? v) eqn:Hv; [| discriminate].
  split; [split |]; simpl.
  - eapply read_requests_ok; [| exact Hreqs]. constructor.
  - eapply read_endpoints_ok; [| exact Heps]. constructor.
  - lia.
Qed.

(** ** The solution extractor *)

Lemma above_half_iff x c v :
  above_half x c v = true <-> (1 # 2 < x (y_var v c))%Q.
Proof.
  unfold above_half. rewrite negb_true_iff.
  destruct (Qle_bool (x (y_var v c)) (1 # 2)) eqn:Hle.
  - apply Qle_bool_iff in Hle. split; [discriminate |].
    intros Hlt. exfalso. exact (Qlt_not_le _ _ Hlt Hle).
  - split; [intros _ | reflexivity].
    apply Qnot_le_lt. intros Hle'. apply Qle_bool_iff in Hle'. congruence.
Qed.

Lemma filterM_filter {A} (p : A -> result bool) (q : A -> bool) (l : list A) :
  (forall a, In a l -> p a = Ok (q a)) -> filterM p l = Ok (filter q l).
Proof.
  induction l as [| a l IH]; simpl; intros Hp; [reflexivity |].
  rewrite Hp by auto. simpl. rewrite IH by auto. reflexivity.
Qed.

Lemma vids_closed x d c :
  0 <= c < C d ->
  filterM (stored (y_tupledict (V d) (C d)) x c) (range (V d)) = Ok (vids_of x d c).
Proof.
  intros Hc. apply filterM_filter. intros v Hv. apply In_range in Hv.
  unfold stored. rewrite getitem_y.
  replace (mem _ _) with true; [reflexivity |].
  symmetry. apply mem_true. apply In_y_keys. lia.
Qed.

Lemma plan_steps x d (l : list Z) :
  forall plan,
    NoDup l ->
    (forall c, In c l -> 0 <= c < C d) ->
    (forall c, In c l -> ~ In c (PyDict.keys plan)) ->
    foldM (plan_step (y_tupledict (V d) (C d)) x d) l plan =
    Ok (plan ++ flat_map (plan_entry x d) l).
Proof.
  induction l as [| c l IH]; intros plan Hnd Hr Hfresh; simpl.
  - rewrite app_nil_r. reflexivity.
  - inversion Hnd as [| ? ? Hc Hnd']; subst.
    unfold plan_step at 1. rewrite vids_closed by (apply Hr; simpl; auto). simpl.
    unfold plan_entry at 1. destruct (vids_of x d c) as [| v0 vs] eqn:Hv.
    + simpl. apply IH; auto.
      * intros c0 H0; apply Hr; simpl; auto.
      * intros c0 H0; apply Hfresh; simpl; auto.
    + rewrite set_fresh by (apply Hfresh; simpl; auto).
      rewrite IH; auto.
      * rewrite <- app_assoc. reflexivity.
      * intros c0 H0; apply Hr; simpl; auto.
      * intros c0 H0 Hin. unfold PyDict.keys in Hin. rewrite map_app in Hin.
        apply in_app_or in Hin. destruct Hin as [Hin | [Heq | []]].
        -- apply (Hfresh c0); simpl; auto.
        -- simpl in Heq. subst c0. tauto.
Qed.

Lemma cache_to_videos_closed x d :
  cache_to_videos (y_tupledict (V d) (C d)) x d = Ok (plan_of x d).
Proof.
  unfold cache_to_videos. rewrite plan_steps; [reflexivity | apply NoDup_range | |].
  - intros c Hc. apply In_range. exact Hc.
  - intros c _ [].
Qed.

Lemma write_solution_closed x d :
  write_solution (y_tupledict (V d) (C d)) x d = Ok (text_of (plan_of x d)).
Proof. unfold write_solution. rewrite cache_to_videos_closed. reflexivity. Qed.

Lemma seq_sorted (n s : nat) : StronglySorted Z.lt (map Z.of_nat (seq s n)).
Proof.
  revert s; induction n as [| n IH]; intros s; simpl; constructor; [apply IH |].
  apply Forall_forall. intros z Hz. apply in_map_iff in Hz.
  destruct Hz as (k & <- & Hk). apply in_seq in Hk. lia.
Qed.

Lemma range_sorted (n : Z) : StronglySorted Z.lt (range n).
Proof. apply seq_sorted. Qed.

Lemma filter_sorted {A} (lt : A -> A -> Prop) (p : A -> bool) (l : list A) :
  StronglySorted lt l -> StronglySorted lt (filter p l).
Proof.
  induction 1 as [| a l Hs IH Ha]; simpl; [constructor |].
  destruct (p a); [| exact IH]. constructor; [exact IH |].
  rewrite Forall_forall in *. intros b Hb. apply filter_In in Hb. apply Ha. tauto.
Qed.

Lemma existsb_filter {A} (p : A -> bool) (l : list A) :
  existsb p l = match filter p l with [] => false | _ :: _ => true end.
Proof.
  induction l as [| a l IH]; simpl; [reflexivity |].
  destruct (p a); simpl; [reflexivity | exact IH].
Qed.

Lemma In_plan_of x d c vids :
  In (c, vids) (plan_of x d) <->
  0 <= c < C d /\ vids = vids_of x d c /\ vids <> [].
Proof.
  unfold plan_of. rewrite in_flat_map. split.
  - intros (c0 & Hc0 & Hin). apply In_range in Hc0. unfold plan_entry in Hin.
    destruct (vids_of x d c0) eqn:Hv; [destruct Hin |].
    destruct Hin as [Heq | []]. inversion Heq; subst.
    rewrite Hv. repeat split; [lia | lia | discriminate].
  - intros (Hc & -> & Hne). exists c. split; [apply In_range; exact Hc |].
    unfold plan_entry. destruct (vids_of x d c); [congruence | left; reflexivity].
Qed.

Lemma keys_plan_of x d :
  PyDict.keys (plan_of x d) =
  filter (fun c => existsb (above_half x c) (range (V d))) (range (C d)).
Proof.
  unfold plan_of, PyDict.keys. induction (range (C d)) as [| c l IH]; simpl; [reflexivity |].
  rewrite map_app, IH. rewrite existsb_filter. unfold plan_entry, vids_of.
  destruct (filter (above_half x c) (range (V d))); reflexivity.
Qed.

(** ** The text of the output, read back *)

Lemma append_assoc (a b c : String.string) :
  String.append (String.append a b) c = String.append a (String.append b c).
Proof. induction a as [| ch a IH]; simpl; [reflexivity | rewrite IH; reflexivity]. Qed.

Lemma has_char_append c a b :
  has_char c (String.append a b) = has_char c a || has_char c b.
Proof.
  induction a as [| ch a IH]; simpl; [reflexivity |].
  rewrite IH. apply orb_assoc.
Qed.

Lemma split_on_clean sep a :
  has_char sep a = false -> split_on sep a = [a].
Proof.
  induction a as [| ch a IH]; simpl; [reflexivity |].
  intros Hc. apply orb_false_iff in Hc. destruct Hc as [Hch Ha].
  rewrite Hch, IH by exact Ha. reflexivity.
Qed.

Lemma split_on_sep sep a b :
  has_char sep a = false ->
  split_on sep (String.append a (String.String sep b)) = a :: split_on sep b.
Proof.
  induction a as [| ch a IH]; simpl.
  - intros _. rewrite Ascii.eqb_refl. reflexivity.
  - intros Hc. apply orb_false_iff in Hc. destruct Hc as [Hch Ha].
    rewrite Hch, IH by exact Ha. reflexivity.
Qed.

(** A character that is neither a digit nor the minus sign does not occur
    in [str n]. *)
Lemma uint_clean c d :
  Forall (fun ch => Ascii.eqb ch c = false)
         ["0"; "1"; "2"; "3"; "4"; "5"; "6"; "7"; "8"; "9"]%char ->
  has_char c (DecimalString.NilEmpty.string_of_uint d) = false.
Proof.
  intros Hd.
  repeat match goal with
         | H : Forall _ (_ :: _) |- _ => inversion H; subst; clear H
         end.
  induction d; cbn [DecimalString.NilEmpty.string_of_uint has_char];
    [reflexivity | rewrite IHd, orb_false_r; assumption ..].
Qed.

Lemma str_clean c n :
  Forall (fun ch => Ascii.eqb ch c = false)
         ["0"; "1"; "2"; "3"; "4"; "5"; "6"; "7"; "8"; "9"; "-"]%char ->
  has_char c (str n) = false.
Proof.
  intros Hd.
  assert (Hu : forall d, has_char c (DecimalString.NilZero.string_of_uint d) = false).
  { intros d. rewrite Forall_forall in Hd.
    assert (Hdig : Forall (fun ch => Ascii.eqb ch c = false)
                     ["0"; "1"; "2"; "3"; "4"; "5"; "6"; "7"; "8"; "9"]%char).
    { apply Forall_forall. intros ch Hch. apply Hd.
      change (In ch (["0"; "1"; "2"; "3"; "4"; "5"; "6"; "7"; "8"; "9"] ++ ["-"])%char).
      apply in_or_app. left. exact Hch. }
    destruct d; try (apply uint_clean; exact Hdig).
    cbn [DecimalString.NilZero.string_of_uint has_char].
    rewrite orb_false_r. apply Hd. left. reflexivity. }
  unfold str, DecimalString.NilZero.string_of_int.
  destruct (Z.to_int n) as [d | d]; [apply Hu |].
  cbn [has_char]. rewrite Hu, orb_false_r.
  rewrite Forall_forall in Hd. apply Hd.
  change (In "-"%char (["0"; "1"; "2"; "3"; "4"; "5"; "6"; "7"; "8"; "9"] ++ ["-"])%char).
  apply in_or_app. right. left. reflexivity.
Qed.

Lemma str_no_space n : has_char " "%char (str n) = false.
Proof. apply str_clean. repeat constructor. Qed.

Lemma str_no_newline n : has_char "010"%char (str n) = false.
Proof. apply str_clean. repeat constructor. Qed.

(** [str] is read back by [int_of_str]. *)
Lemma int_of_str_str n : int_of_str (str n) = Some n.
Proof.
  unfold int_of_str, str. rewrite DecimalString.NilZero.isi.
  - simpl. rewrite DecimalZ.of_to. reflexivity.
  - destruct n; simpl; try discriminate.
    intros Heq. inversion Heq as [Hp].
    exact (DecimalPos.Unsigned.to_uint_nonnil _ Hp).
  - destruct n; simpl; try discriminate.
    intros Heq. inversion Heq as [Hp].
    exact (DecimalPos.Unsigned.to_uint_nonnil _ Hp).
Qed.

Lemma join_clean c (ts : list String.string) :
  has_char c " " = false ->
  Forall (fun t => has_char c t = false) ts ->
  has_char c (join " " ts) = false.
Proof.
  intros Hsp Hts. induction Hts as [| t ts Ht Hts IH]; [reflexivity |].
  destruct ts as [| t' ts]; [exact Ht |].
  change (join " " (t :: t' :: ts))
    with (String.append t (String.append " " (join " " (t' :: ts)))).
  rewrite !has_char_append, Ht, Hsp, IH. reflexivity.
Qed.

Lemma split_join (ts : list String.string) :
  ts <> [] ->
  Forall (fun t => has_char " "%char t = false) ts ->
  split_on " "%char (join " " ts) = ts.
Proof.
  intros Hne Hts. induction Hts as [| t ts Ht Hts IH]; [congruence |].
  destruct ts as [| t' ts]; [simpl; apply split_on_clean; exact Ht |].
  change (join " " (t :: t' :: ts))
    with (String.append t (String.String " "%char (join " " (t' :: ts)))).
  rewrite split_on_sep by exact Ht. rewrite IH by discriminate. reflexivity.
Qed.

(** A line of the output without its newline. *)
Lemma out_line_shape c vids :
  vids <> [] ->
  exists line,
    out_line (c, vids) = String.append line (String.String "010"%char String.EmptyString) /\
    has_char "010"%char line = false /\
    map int_of_str (split_on " "%char line) = map Some (c :: vids).
Proof.
  intros Hne. exists (join " " (str c :: map str vids)).
  assert (Hj : join " " (str c :: map str vids) =
               String.append (str c) (String.append " " (join " " (map str vids)))).
  { destruct vids; [congruence | reflexivity]. }
  split; [| split].
  - rewrite Hj. unfold out_line, newline. rewrite !append_assoc. reflexivity.
  - apply join_clean; [reflexivity |].
    constructor; [apply str_no_newline |].
    apply Forall_forall. intros t Ht. apply in_map_iff in Ht.
    destruct Ht as (v & <- & _). apply str_no_newline.
  - rewrite split_join.
    + simpl. rewrite int_of_str_str. f_equal.
      rewrite map_map. apply map_ext. intros v. apply int_of_str_str.
    + discriminate.
    + constructor; [apply str_no_space |].
      apply Forall_forall. intros t Ht. apply in_map_iff in Ht.
      destruct Ht as (v & <- & _). apply str_no_space.
Qed.

Lemma read_lines (plan : dict Z (list Z)) :
  (forall c vids, In (c, vids) plan -> vids <> []) ->
  map (fun l => map int_of_str (split_on " "%char l))
      (removelast (split_on "010"%char (String.concat "" (map out_line plan)))) =
  map (fun it => map Some (fst it :: snd it)) plan /\
  split_on "010"%char (String.concat "" (map out_line plan)) <> [].
Proof.
  induction plan as [| [c vids] plan IH]; intros Hne; [split; [reflexivity | discriminate] |].
  destruct (out_line_shape c vids) as (line & Hline & Hnl & Hnum);
    [apply (Hne c vids); left; reflexivity |].
  destruct IH as [IH1 IH2]; [intros c0 v0 H0; apply (Hne c0 v0); right; exact H0 |].
  assert (Hcat : String.concat "" (map out_line ((c, vids) :: plan)) =
                 String.append line
                   (String.String "010"%char (String.concat "" (map out_line plan)))).
  { cbn [map String.concat]. rewrite Hline.
    destruct (map out_line plan) as [| l ls]; [reflexivity |].
    rewrite append_assoc. reflexivity. }
  rewrite Hcat, split_on_sep by exact Hnl.
  split; [| discriminate].
  destruct (split_on "010"%char (String.concat "" (map out_line plan))) as [| t ts] eqn:Hs;
    [congruence |].
  cbn [removelast map]. cbn [removelast] in IH1. rewrite Hnum. f_equal. exact IH1.
Qed.

(** Reading back the text of a plan gives the number of its entries on the
    first line and then, for each entry, the cache followed by its videos. *)
Lemma read_back_text (plan : dict Z (list Z)) :
  (forall c vids, In (c, vids) plan -> vids <> []) ->
  read_back (text_of plan) =
  [Some (Z.of_nat (length plan))] :: map (fun it => map Some (fst it :: snd it)) plan.
Proof.
  intros Hne. destruct (read_lines plan Hne) as [Hl Hnn].
  unfold read_back, lines_of, text_of, newline.
  change (String.append (String.String "010"%char String.EmptyString)
            (String.concat "" (map out_line plan)))
    with (String.String "010"%char (String.concat "" (map out_line plan))).
  rewrite split_on_sep by apply str_no_newline.
  destruct (split_on "010"%char (String.concat "" (map out_line plan))) as [| t ts] eqn:Hs;
    [congruence |].
  cbn [removelast map]. cbn [removelast] in Hl. rewrite Hl.
  rewrite split_on_clean by apply str_no_space.
  simpl. rewrite int_of_str_str. reflexivity.
Qed.

(** C6: from the values [x] of the variables the extractor builds the plan
    and the text of the output file.  A video [v] is listed under cache [c]
    exactly when the value of [y[v,c]] is strictly above one half; every
    listed cache has a non-empty, strictly ascending list of videos; the
    caches are listed in ascending order, each once; the first line of the
    text is the number of caches that hold a video, followed by one line
    per plan entry.  Read back line by line and number by number, the text
    holds that count alone on its first line and then, for each plan entry
    in order, the cache index followed by its videos: a cache without a
    video has no line. *)
Theorem C6_solution_extractor (x : assignment) (d : data) :
  exists plan,
    cache_to_videos (y_tupledict (V d) (C d)) x d = Ok plan /\
    write_solution (y_tupledict (V d) (C d)) x d =
      Ok (String.append (str (Z.of_nat (length plan)))
            (String.append newline (String.concat "" (map out_line plan)))) /\
    (forall c v, 0 <= c < C d -> 0 <= v < V d ->
       ((exists vids, In (c, vids) plan /\ In v vids) <-> (1 # 2 < x (y_var v c))%Q)) /\
    (forall c vids, In (c, vids) plan ->
       0 <= c < C d /\ vids <> [] /\ StronglySorted Z.lt vids /\
       forall v, In v vids -> 0 <= v < V d /\ (1 # 2 < x (y_var v c))%Q) /\
    StronglySorted Z.lt (PyDict.keys plan) /\
    length plan =
      length (filter (fun c => existsb (above_half x c) (range (V d))) (range (C d))) /\
    read_back
      (String.append (str (Z.of_nat (length plan)))
         (String.append newline (String.concat "" (map out_line plan)))) =
      [Some (Z.of_nat (length plan))] :: map (fun it => map Some (fst it :: snd it)) plan.
Proof.
  exists (plan_of x d).
  split; [apply cache_to_videos_closed |].
  split; [apply write_solution_closed |].
  split; [| split; [| split; [| split]]].
  - intros c v Hc Hv. split.
    + intros (vids & Hin & Hv'). apply In_plan_of in Hin. destruct Hin as (_ & -> & _).
      apply filter_In in Hv'. apply above_half_iff. tauto.
    + intros Hx. exists (vids_of x d c).
      assert (Hin : In v (vids_of x d c)).
      { apply filter_In. split; [apply In_range; exact Hv | apply above_half_iff; exact Hx]. }
      split; [| exact Hin]. apply In_plan_of.
      repeat split; try lia. intros Hnil. rewrite Hnil in Hin. destruct Hin.
  - intros c vids Hin. apply In_plan_of in Hin. destruct Hin as (Hc & -> & Hne).
    split; [exact Hc |]. split; [exact Hne |].
    split; [apply filter_sorted; apply range_sorted |].
    intros v Hv. apply filter_In in Hv. destruct Hv as [Hv Hx].
    split; [apply In_range; exact Hv | apply above_half_iff; exact Hx].
  - rewrite keys_plan_of. apply filter_sorted. apply range_sorted.
  - rewrite <- keys_plan_of. unfold PyDict.keys. rewrite length_map. reflexivity.
  - apply (read_back_text (plan_of x d)).
    intros c vids Hin. apply In_plan_of in Hin. tauto.
Qed.

(** The extractor at the running example, for a solver that stores video 0
    in cache 0 and video 1 in cache 0 at exactly one half. *)
Example write_example :
  write_solution (y_tupledict 2 2)
    (fun x => if eqb x (y_var 0 0) then 1%Q
              else if eqb x (y_var 1 0) then (1 # 2)%Q else 0%Q)
    example_data
  = Ok (String.append "1" (String.append newline (String.append "0 0" newline))).
Proof. reflexivity. Qed.

(** The extractor at the running example, for values that store both
    videos in cache 1 and nothing in cache 0. *)
Example write_cache_one :
  write_solution (y_tupledict 2 2) cache_one_assignment example_data
  = Ok (String.append "1" (String.append newline (String.append "1 0 1" newline))).
Proof. reflexivity. Qed.

(** A line for cache 12 holding videos 3, 45 and 6. *)
Example out_line_example :
  out_line (12, [3; 45; 6]) = String.append "12 3 45 6" newline.
Proof. reflexivity. Qed.

(** ** Degenerate instances *)

Lemma list_prod_nil_r {A B} (l : list A) : list_prod l (@nil B) = [].
Proof. induction l as [| a l IH]; simpl; auto. Qed.

Lemma degenerate_y (d : data) :
  V d = 0 \/ C d = 0 -> y_tupledict (V d) (C d) = [].
Proof.
  unfold y_tupledict. intros [-> | ->]; [reflexivity |].
  change (range 0) with (@nil Z). rewrite list_prod_nil_r. reflexivity.
Qed.

Lemma degenerate_plan (x : assignment) (d : data) :
  V d = 0 \/ C d = 0 -> plan_of x d = [].
Proof.
  unfold plan_of. intros [Hv | Hc].
  - apply flat_map_nil. intros c _. unfold plan_entry, vids_of. rewrite Hv. reflexivity.
  - rewrite Hc. reflexivity.
Qed.

Lemma no_keys_no_rows (rs : list row) :
  flat_map row_keys rs = [] ->
  flat_map row_group rs = [] /\ flat_map row_gains rs = [].
Proof.
  induction rs as [| r rs IH]; simpl; intros Hk; [auto |].
  apply app_eq_nil in Hk. destruct Hk as [Hr Hrs].
  destruct (IH Hrs) as [Hg Hz]. rewrite Hg, Hz.
  unfold row_keys in Hr. apply map_eq_nil in Hr.
  unfold row_group, row_gains. rewrite Hr. auto.
Qed.

(** C7, as the code has it: the builder has no emptiness check.  On an
    instance that was read with [V = 0] or [C = 0], if the pruning loop ends
    with no key the builder returns the model without variables, and [main]
    hands it to the solver and, when the solver reports a solution, writes
    the one-line file [0]; if a key survives, the lookup of its [y] variable
    raises [KeyError] and nothing is written. *)
Theorem C7_degenerate_instance (optimize : Model -> Solution) f d st :
  read_instance f = Ok d ->
  V d = 0 \/ C d = 0 ->
  z_phase d = Ok st ->
  (z_keys st = [] ->
   build_model d (5 # 1000) = Ok (vacuous_model d (5 # 1000), []) /\
   (SolCount (optimize (vacuous_model d (5 # 1000))) <> 0 ->
    main optimize f =
    Returned {| videos_mps := Some (vacuous_model d (5 # 1000));
                videos_out := Some (String.append "0" newline) |})) /\
  (z_keys st <> [] ->
   build_model d (5 # 1000) = Raise KeyError /\
   main optimize f = Uncaught KeyError no_files).
Proof.
  intros Hread Hdeg Hst.
  destruct (read_instance_ok f d Hread) as [Hok Hlen].
  rewrite z_phase_rows in Hst by exact Hok.
  apply bind_Ok in Hst. destruct Hst as (rs & Hrows & Hst).
  inversion Hst; subst st; clear Hst. simpl.
  assert (Hsz : sizes_cover d) by (intros _; lia).
  split.
  - intros Hk.
    assert (Hb : build_model d (5 # 1000) = Ok (vacuous_model d (5 # 1000), [])).
    { rewrite (build_model_closed d (5 # 1000) rs Hok Hrows Hsz)
        by (rewrite Hk; intros e v c []).
      rewrite (degenerate_y d Hdeg). do 2 f_equal.
      destruct (no_keys_no_rows rs Hk) as [Hg Hz].
      unfold model_of, vacuous_model. rewrite Hk, Hg, Hz.
      fold (y_tupledict (V d) (C d)).
      replace (map y_of (list_prod (range (V d)) (range (C d)))) with (@nil Var)
        by (destruct Hdeg as [-> | ->];
            [| change (range 0) with (@nil Z); rewrite list_prod_nil_r]; reflexivity).
      simpl. rewrite app_nil_r. f_equal.
      destruct Hdeg as [Hv | Hc].
      - apply map_ext. intros c. unfold cap_of. rewrite Hv. reflexivity.
      - rewrite Hc. reflexivity. }
    split; [exact Hb |].
    intros Hsol. unfold main. rewrite Hread, Hb.
    destruct (SolCount _ =? 0) eqn:Hz; [lia |].
    rewrite <- (degenerate_y d Hdeg), write_solution_closed.
    rewrite (degenerate_plan _ d Hdeg). reflexivity.
  - intros Hk.
    assert (Hb : build_model d (5 # 1000) = Raise KeyError).
    { unfold build_model. rewrite z_phase_rows by exact Hok. rewrite Hrows.
      cbn [bind state_of z_keys]. rewrite (caps_closed d Hsz). cbn [bind].
      destruct (flat_map row_keys rs) as [| [[e v] c] ks]; [congruence |].
      cbn [mapM]. unfold link_constr at 1. rewrite getitem_z.
      replace (mem (e, v, c) ((e, v, c) :: ks)) with true
        by (symmetry; apply mem_true; left; reflexivity).
      cbn [bind]. rewrite (degenerate_y d Hdeg). reflexivity. }
    split; [exact Hb |].
    unfold main. rewrite Hread, Hb. reflexivity.
Qed.

(** C7 fails on the code: with [V = 0] the reader succeeds, the builder
    returns a model, no exception is raised, and with a solver that reports
    a solution the output file is written. *)
Lemma C7_counterexample :
  read_instance degenerate_file = Ok degenerate_data /\
  V degenerate_data = 0 /\
  build_model degenerate_data (5 # 1000) = Ok (degenerate_model, []) /\
  main zero_solver degenerate_file =
    Returned {| videos_mps := Some degenerate_model;
                videos_out := Some (String.append "0" newline) |}.
Proof. repeat split. Qed.

Lemma C7_degenerate_instance_witness :
  build_model degenerate_data (5 # 1000) = Ok (degenerate_model, []) /\
  main zero_solver degenerate_file =
    Returned {| videos_mps := Some degenerate_model;
                videos_out := Some (String.append "0" newline) |}.
Proof.
  destruct (C7_degenerate_instance zero_solver degenerate_file degenerate_data z_init
              eq_refl (or_introl eq_refl) eq_refl) as [Hempty _].
  destruct (Hempty eq_refl) as [Hb Hmain].
  split; [exact Hb |]. apply Hmain. discriminate.
Defined.

(** ** Out-of-range indices *)

(** C8 fails on the code: a file whose records name cache 7 (of 1),
    endpoint -2 (of 2) and video 3 (of 1) is read without error, the model
    is built from it, and the run ends with an output file. *)
Lemma C8_counterexample :
  read_instance stray_file = Ok stray_data /\
  build_model stray_data (5 # 1000) = Ok (stray_model, y_tupledict 1 1) /\
  main ones_solver stray_file =
    Returned {| videos_mps := Some stray_model;
                videos_out := Some (String.append "1"
                                      (String.append newline
                                         (String.append "0 0" newline))) |}.
Proof. repeat split. Qed.

(** ** No solution *)

(** C9, as the code has it: when the solver reports no solution, [main]
    returns normally -- no exception is raised -- after writing the model
    file only; [videos.out] is not written. *)
Theorem C9_no_solution (optimize : Model -> Solution) f d m y :
  read_instance f = Ok d ->
  build_model d (5 # 1000) = Ok (m, y) ->
  SolCount (optimize m) = 0 ->
  main optimize f = Returned {| videos_mps := Some m; videos_out := None |}.
Proof.
  intros Hread Hb Hsol. unfold main. rewrite Hread, Hb, Hsol. reflexivity.
Qed.

(** C9 fails on the code as stated: with no solution the run does not
    fail, [main] returns. *)
Lemma C9_counterexample :
  SolCount (failing_solver example_model) = 0 /\
  main failing_solver example_file =
    Returned {| videos_mps := Some example_model; videos_out := None |} /\
  forall e fs, main failing_solver example_file <> Uncaught e fs.
Proof. repeat split. intros e fs. discriminate. Qed.

Lemma C9_no_solution_witness :
  main failing_solver degenerate_file =
    Returned {| videos_mps := Some degenerate_model; videos_out := None |}.
Proof.
  apply (C9_no_solution failing_solver degenerate_file degenerate_data
           degenerate_model []); reflexivity.
Defined.

(** * Further properties of the code *)

(** ** The reader: errors and shape *)

Lemma rbind_Raise {A B} (m : reader A) (k : A -> reader B) (f : file) (e : exn) :
  rbind m k f = Raise e ->
  m f = Raise e \/ exists a f1, m f = Ok (a, f1) /\ k a f1 = Raise e.
Proof.
  unfold rbind. destruct (m f) as [[a f1] | e0]; [eauto |].
  intros Heq; left; inversion Heq; reflexivity.
Qed.

Lemma readline_Ok (f : file) : exists l f1, readline f = Ok (l, f1).
Proof. destruct f; simpl; eauto. Qed.

Lemma lift_Raise {A} (r : result A) (f : file) (e : exn) :
  lift r f = Raise e -> r = Raise e.
Proof. unfold lift. destruct r; [discriminate |]. intros Heq; inversion Heq; reflexivity. Qed.

Lemma unpack2_exn l e : unpack2 l = Raise e -> e = ValueError.
Proof. destruct l as [| a [| b [| c l]]]; simpl; congruence. Qed.

Lemma unpack3_exn l e : unpack3 l = Raise e -> e = ValueError.
Proof. destruct l as [| a [| b [| c [| d l]]]]; simpl; congruence. Qed.

Lemma unpack5_exn l e : unpack5 l = Raise e -> e = ValueError.
Proof.
  destruct l as [| a [| b [| c [| d [| e0 [| g l]]]]]]; simpl; congruence.
Qed.

(** A step that reads a line and unpacks it fails with [ValueError] only. *)
Ltac reader_step H :=
  apply rbind_Raise in H;
  destruct H as [H | (?l & ?f1 & _ & H)];
  [ match type of H with
    | readline ?f = Raise _ => destruct (readline_Ok f) as (? & ? & Hr); congruence
    end |].

Lemma read_caches_exn (n : nat) :
  forall cl f e, read_caches n cl f = Raise e -> e = ValueError.
Proof.
  induction n as [| n IH]; simpl; intros cl f e H; [discriminate |].
  reader_step H.
  apply rbind_Raise in H. destruct H as [H | ([c lat] & f2 & _ & H)].
  - apply lift_Raise in H. eapply unpack2_exn; eauto.
  - eapply IH; eauto.
Qed.

Lemma read_endpoints_exn (n : nat) :
  forall eps f e, read_endpoints n eps f = Raise e -> e = ValueError.
Proof.
  induction n as [| n IH]; simpl; intros eps f e H; [discriminate |].
  reader_step H.
  apply rbind_Raise in H. destruct H as [H | ([dc k] & f2 & _ & H)].
  - apply lift_Raise in H. eapply unpack2_exn; eauto.
  - apply rbind_Raise in H. destruct H as [H | (cl & f3 & _ & H)].
    + eapply read_caches_exn; eauto.
    + eapply IH; eauto.
Qed.

Lemma read_requests_exn (n : nat) :
  forall reqs f e, read_requests n reqs f = Raise e -> e = ValueError.
Proof.
  induction n as [| n IH]; simpl; intros reqs f e H; [discriminate |].
  reader_step H.
  apply rbind_Raise in H. destruct H as [H | (rec & f2 & _ & H)].
  - apply lift_Raise in H. eapply unpack3_exn; eauto.
  - eapply IH; eauto.
Qed.

(** X1: whatever the file, the reader fails only with [ValueError] (a line
    with the wrong number of values) or [AssertionError] (the size line);
    it never raises [IndexError] or [KeyError]. *)
Theorem read_instance_raises_only (f : file) (e : exn) :
  read_instance f = Raise e -> e = ValueError \/ e = AssertionError.
Proof.
  unfold read_instance.
  destruct (rbind _ _ f) as [[d0 f0] | e0] eqn:H; [discriminate |].
  intros Heq; inversion Heq; subst e0; clear Heq.
  reader_step H.
  apply rbind_Raise in H. destruct H as [H | ([[[[v n] r] c] x] & f2 & _ & H)].
  { left. apply lift_Raise in H. eapply unpack5_exn; eauto. }
  reader_step H.
  apply rbind_Raise in H. destruct H as [H | ([] & f4 & _ & H)].
  { right. apply lift_Raise in H. destruct (_ =? _); congruence. }
  apply rbind_Raise in H. destruct H as [H | (eps & f5 & _ & H)].
  { left. eapply read_endpoints_exn; eauto. }
  apply rbind_Raise in H. destruct H as [H | (reqs & f6 & _ & H)].
  { left. eapply read_requests_exn; eauto. }
  discriminate.
Qed.

Lemma read_instance_raises_only_witness :
  read_instance [] = Raise ValueError /\
  (ValueError = ValueError \/ ValueError = AssertionError).
Proof.
  split; [reflexivity |].
  apply (read_instance_raises_only [] ValueError). reflexivity.
Defined.

Lemma read_requests_short (recs : list (Z * Z * Z)) :
  forall acc j,
    read_requests (length recs + S j) acc (map request_line recs) = Raise ValueError.
Proof.
  induction recs as [| [[v e] n] recs IH]; intros acc j; simpl; [reflexivity |].
  unfold rbind at 1. simpl. unfold rbind at 1. simpl. apply IH.
Qed.

(** X2: a file whose header announces more request records than the file
    holds, and is well formed otherwise, makes the reader fail with
    [ValueError]: at end of file [readline] gives an empty line, which does
    not unpack into three values. *)
Theorem read_instance_truncated c x sizes eps reqs k :
  0 < k ->
  read_instance
    ([Z.of_nat (length sizes); Z.of_nat (length eps); Z.of_nat (length reqs) + k; c; x]
     :: sizes
     :: flat_map endpoint_lines eps ++ map request_line reqs)
  = Raise ValueError.
Proof.
  intros Hk. unfold read_instance.
  unfold rbind at 1. simpl. unfold rbind at 1. simpl.
  unfold rbind at 1. simpl. unfold rbind at 1. simpl.
  rewrite Z.eqb_refl. simpl.
  unfold rbind at 1. rewrite Nat2Z.id, read_endpoints_lines.
  unfold rbind at 1.
  replace (Z.to_nat (Z.of_nat (length reqs) + k))
    with (length reqs + S (Z.to_nat k - 1))%nat by lia.
  rewrite read_requests_short. reflexivity.
Qed.

Lemma read_instance_truncated_witness :
  read_instance [[1; 1; 2; 1; 10]; [5]; [10; 1]; [0; 2]; [0; 0; 3]] = Raise ValueError.
Proof.
  apply (read_instance_truncated 1 10 [5]
           [{| raw_dc := 10; raw_caches := [(0, 2)] |}] [(0, 0, 3)] 1).
  reflexivity.
Defined.

(** X3: when the second line does not hold exactly [V] sizes, the reader
    fails with [AssertionError], whatever follows. *)
Theorem read_instance_size_mismatch v e r c x sizes rest :
  Z.of_nat (length sizes) <> v ->
  read_instance ([v; e; r; c; x] :: sizes :: rest) = Raise AssertionError.
Proof.
  intros Hv. unfold read_instance.
  unfold rbind at 1. simpl. unfold rbind at 1. simpl.
  unfold rbind at 1. simpl. unfold rbind at 1.
  destruct (Z.of_nat (length sizes) =? v) eqn:Heq; [lia | reflexivity].
Qed.

Lemma read_instance_size_mismatch_witness :
  read_instance [[2; 0; 0; 1; 10]; [5]] = Raise AssertionError.
Proof.
  apply (read_instance_size_mismatch 2 0 0 1 10 [5] []). discriminate.
Defined.

(** X4: the reader stops after the last announced request record; lines
    that follow a well-formed instance are never read. *)
Theorem read_instance_ignores_trailing (r : raw_instance) (extra : file) :
  read_instance (render r ++ extra) = read_instance (render r).
Proof.
  rewrite read_instance_render.
  unfold read_instance, render.
  unfold rbind at 1. simpl. unfold rbind at 1. simpl.
  unfold rbind at 1. simpl. unfold rbind at 1. simpl.
  rewrite Z.eqb_refl. simpl.
  unfold rbind at 1. rewrite <- app_assoc, Nat2Z.id, read_endpoints_lines.
  unfold rbind at 1. rewrite Nat2Z.id, read_requests_lines.
  reflexivity.
Qed.

Lemma get_fold_set_other (l : list (Z * Z)) :
  forall (cl : dict Z Z) c,
    ~ In c (map fst l) ->
    PyDict.get (fold_left (fun cl it => PyDict.set cl (fst it) (snd it)) l cl) c =
    PyDict.get cl c.
Proof.
  induction l as [| [c0 lat0] l IH]; intros cl c Hc; simpl; [reflexivity |].
  simpl in Hc. rewrite IH by tauto. rewrite get_set.
  destruct (eq_dec c c0); [subst; tauto | reflexivity].
Qed.

(** X5: cache lines of one endpoint overwrite: when a cache id occurs on
    several lines of an endpoint block, the endpoint that was read holds the
    latency of the last of them (request records, by contrast, add up). *)
Theorem read_instance_last_latency (r : raw_instance) i ep l1 c lat l2 :
  nth_error (raw_endpoints r) i = Some ep ->
  raw_caches ep = l1 ++ (c, lat) :: l2 ->
  ~ In c (map fst l2) ->
  exists d ep',
    read_instance (render r) = Ok d /\
    nth_error (endpoints d) i = Some ep' /\
    dc_latency ep' = raw_dc ep /\
    PyDict.get (cache_latencies ep') c = Some lat.
Proof.
  intros Hi Hl Hc. exists (parsed r), (parse_endpoint ep).
  split; [apply read_instance_render |].
  split; [simpl; apply map_nth_error; exact Hi |].
  split; [reflexivity |].
  unfold parse_endpoint, cache_dict; simpl. rewrite Hl.
  rewrite fold_left_app. simpl.
  rewrite get_fold_set_other by exact Hc.
  rewrite get_set. destruct (eq_dec c c); [reflexivity | congruence].
Qed.

Lemma read_instance_last_latency_witness :
  exists d ep',
    read_instance [[0; 1; 0; 1; 10]; []; [10; 3]; [0; 2]; [0; 7]; [1; 4]] = Ok d /\
    nth_error (endpoints d) 0 = Some ep' /\
    dc_latency ep' = 10 /\
    PyDict.get (cache_latencies ep') 0 = Some 7.
Proof.
  apply (read_instance_last_latency
           {| raw_C := 1; raw_X := 10; raw_sizes := [];
              raw_endpoints := [{| raw_dc := 10; raw_caches := [(0, 2); (0, 7); (1, 4)] |}];
              raw_requests := [] |}
           0%nat {| raw_dc := 10; raw_caches := [(0, 2); (0, 7); (1, 4)] |}
           [(0, 2)] 0 7 [(1, 4)]).
  - reflexivity.
  - reflexivity.
  - simpl. intros [H | []]. discriminate.
Defined.

Lemma length_set_le {K W} `{EqDec K} (d : dict K W) k w :
  (length (PyDict.set d k w) <= S (length d))%nat.
Proof.
  induction d as [| [k0 w0] d IH]; simpl; [lia |].
  destruct (eq_dec k k0); simpl; lia.
Qed.

Lemma read_endpoints_length (n : nat) :
  forall eps f eps' f',
    read_endpoints n eps f = Ok (eps', f') -> length eps' = (length eps + n)%nat.
Proof.
  induction n as [| n IH]; simpl; intros eps f eps' f' Hr.
  - inversion Hr; subst. lia.
  - apply rbind_Ok in Hr. destruct Hr as (l & f1 & _ & Hr).
    apply rbind_Ok in Hr. destruct Hr as ([dc k] & f2 & _ & Hr).
    apply rbind_Ok in Hr. destruct Hr as (cl & f3 & _ & Hr).
    apply IH in Hr. rewrite Hr, length_app. simpl. lia.
Qed.

Lemma read_requests_length (n : nat) :
  forall reqs f reqs' f',
    read_requests n reqs f = Ok (reqs', f') -> (length reqs' <= length reqs + n)%nat.
Proof.
  induction n as [| n IH]; simpl; intros reqs f reqs' f' Hr.
  - inversion Hr; subst. lia.
  - apply rbind_Ok in Hr. destruct Hr as (l & f1 & _ & Hr).
    apply rbind_Ok in Hr. destruct Hr as ([[v e] k] & f2 & _ & Hr).
    apply IH in Hr. unfold add_request in Hr.
    pose proof (length_set_le reqs (e, v) (PyDict.get_default reqs (e, v) 0 + k)). lia.
Qed.

(** X6: an instance that was read is well shaped: no request pair and no
    cache id of an endpoint occurs twice, there are exactly [V] sizes and
    [max(E,0)] endpoints, and at most [max(R,0)] request pairs. *)
Theorem read_instance_shape (f : file) (d : data) :
  read_instance f = Ok d ->
  PyDict.ok (requests d) /\
  Forall (fun ep => PyDict.ok (cache_latencies ep)) (endpoints d) /\
  Z.of_nat (length (video_sizes d)) = V d /\
  Z.of_nat (length (endpoints d)) = Z.max 0 (E d) /\
  Z.of_nat (length (requests d)) <= Z.max 0 (R d).
Proof.
  intros Hread. destruct (read_instance_ok f d Hread) as [[Hreq Heps] Hv].
  split; [exact Hreq |]. split; [exact Heps |]. split; [lia |].
  unfold read_instance in Hread.
  destruct (rbind _ _ f) as [[d0 f0] | e] eqn:Hr; [| discriminate].
  inversion Hread; subst d0; clear Hread.
  apply rbind_Ok in Hr. destruct Hr as (l & f1 & _ & Hr).
  apply rbind_Ok in Hr. destruct Hr as ([[[[v e] r] c] x] & f2 & _ & Hr).
  apply rbind_Ok in Hr. destruct Hr as (sizes & f3 & _ & Hr).
  apply rbind_Ok in Hr. destruct Hr as ([] & f4 & _ & Hr).
  apply rbind_Ok in Hr. destruct Hr as (eps & f5 & Hep & Hr).
  apply rbind_Ok in Hr. destruct Hr as (reqs & f6 & Hrq & Hr).
  inversion Hr; subst; clear Hr. simpl.
  apply read_endpoints_length in Hep. apply read_requests_length in Hrq.
  simpl in Hep, Hrq. split; lia.
Qed.

Lemma read_instance_shape_witness :
  Z.of_nat (length (video_sizes example_data)) = V example_data /\
  Z.of_nat (length (endpoints example_data)) = Z.max 0 (E example_data) /\
  Z.of_nat (length (requests example_data)) <= Z.max 0 (R example_data).
Proof.
  destruct (read_instance_shape example_file example_data eq_refl)
    as (_ & _ & Hv & He & Hr).
  auto.
Defined.

(** ** The builder: when it returns and when it raises *)

Lemma example_in_range : in_range example_data.
Proof.
  split; [simpl; lia |]. split.
  - intros e v n Hin. simpl in Hin.
    destruct Hin as [H | [H | [H | []]]]; inversion H; subst; simpl; lia.
  - intros ep c lat Hep Hin. simpl in Hep.
    destruct Hep as [<- | [<- | []]]; simpl in Hin.
    + destruct Hin as [H | [H | []]]; inversion H; subst; simpl; lia.
    + destruct Hin as [H | []]; inversion H; subst; simpl; lia.
Defined.

(** X7: on an instance whose endpoint, video and cache indices all lie in
    their declared ranges, and which has a size for every video, none of the
    builder's own lookups fails ([endpoints[e]], [video_sizes[v]], [y[v,c]],
    [z[e,v,c]], [z_gain[k]]): the builder raises neither [IndexError] nor
    [KeyError]. *)
Theorem build_model_lookups_in_range (d : data) (gap : Q) :
  dicts_ok d -> in_range d ->
  build_model d gap <> Raise IndexError /\ build_model d gap <> Raise KeyError.
Proof.
  intros Hok (Hsz & Hreq & Hcl).
  set (dflt := {| dc_latency := 0; cache_latencies := [] |}).
  set (g := fun item : Z * Z * Z =>
              let '(e, v, n) := item in
              let ep := nth (Z.to_nat e) (endpoints d) dflt in
              {| row_e := e; row_v := v; row_n := n; row_dc := dc_latency ep;
                 row_surv := survivors (dc_latency ep) (cache_latencies ep) |}).
  assert (Hrows : rows d = Ok (map g (requests d))).
  { apply mapM_map. intros [[e v] n] Hin. unfold row_of.
    rewrite (list_getitem_nonneg _ _ dflt) by (apply Hreq in Hin; lia). reflexivity. }
  rewrite (build_model_closed d gap (map g (requests d)) Hok Hrows).
  - split; discriminate.
  - intros _. exact Hsz.
  - intros e v c Hk.
    destruct (key_origin d _ e v c Hok Hrows Hk) as (n & ep & lat & Hn & Hep & Hlat & _).
    apply get_In in Hn. apply Hreq in Hn.
    apply list_getitem_In in Hep. apply get_In in Hlat.
    split; [tauto | eapply Hcl; eauto].
Qed.

Lemma build_model_lookups_in_range_witness :
  build_model example_data (5 # 1000) <> Raise IndexError /\
  build_model example_data (5 # 1000) <> Raise KeyError.
Proof.
  apply (build_model_lookups_in_range example_data (5 # 1000)
           example_dicts_ok example_in_range).
Defined.

Lemma stray_endpoint_raises_witness :
  build_model lost_endpoint_data (5 # 1000) = Raise IndexError.
Proof.
  apply (stray_endpoint_raises lost_endpoint_data (5 # 1000) 5 0 4).
  - left. reflexivity.
  - right. simpl. lia.
Defined.

Lemma mapM_raises {A B} (f : A -> result B) (l : list A) (e : exn) :
  (forall x, In x l -> (exists y, f x = Ok y) \/ f x = Raise e) ->
  (exists x, In x l /\ f x = Raise e) ->
  mapM f l = Raise e.
Proof.
  induction l as [| a l IH]; intros Hall (x & Hin & Hx); [destruct Hin |].
  simpl. destruct (Hall a (or_introl eq_refl)) as [[y Hy] | Ha].
  - rewrite Hy. simpl. rewrite IH; [reflexivity | |].
    + intros x0 H0. apply Hall. right. exact H0.
    + destruct Hin as [-> | Hin]; [congruence | eauto].
  - rewrite Ha. reflexivity.
Qed.

Lemma cap_term_Ok_or (d : data) (c v : Z) :
  0 <= c < C d -> 0 <= v < V d ->
  (exists t, cap_term d (y_tupledict (V d) (C d)) c v = Ok t) \/
  cap_term d (y_tupledict (V d) (C d)) c v = Raise IndexError.
Proof.
  intros Hc Hv. unfold cap_term.
  destruct (list_getitem (video_sizes d) v) as [sz | e] eqn:Hs; cbn [bind].
  - rewrite getitem_y.
    replace (mem _ _) with true by (symmetry; apply mem_true; apply In_y_keys; lia).
    left. eexists. reflexivity.
  - apply list_getitem_exn in Hs. subst e. right. reflexivity.
Qed.

(** With a cache and fewer sizes than videos, the capacity constraints
    cannot be formed. *)
Lemma caps_raise (d : data) :
  0 < C d -> Z.of_nat (length (video_sizes d)) < V d ->
  mapM (cap_constr d (y_tupledict (V d) (C d))) (range (C d)) = Raise IndexError.
Proof.
  intros HC HV. apply mapM_raises.
  - intros c Hc. apply In_range in Hc. right. unfold cap_constr.
    rewrite (mapM_raises _ (range (V d)) IndexError); [reflexivity | |].
    + intros v Hv. apply In_range in Hv. apply cap_term_Ok_or; assumption.
    + exists (Z.of_nat (length (video_sizes d))). split; [apply In_range; lia |].
      unfold cap_term. rewrite list_getitem_out by lia. reflexivity.
  - exists 0. split; [apply In_range; lia |]. unfold cap_constr.
    rewrite (mapM_raises _ (range (V d)) IndexError); [reflexivity | |].
    + intros v Hv. apply In_range in Hv. apply cap_term_Ok_or; [lia | assumption].
    + exists (Z.of_nat (length (video_sizes d))). split; [apply In_range; lia |].
      unfold cap_term. rewrite list_getitem_out by lia. reflexivity.
Qed.

(** X9: when the pruning loop has kept a triple whose video or cache index
    is outside [0,V) x [0,C), the builder fails.  If every video has a size
    (or there is no cache), it fails with [KeyError] at the linking
    constraints: the variable [y[v,c]] does not exist.  If there is a cache
    and fewer sizes than videos, it fails earlier, with [IndexError] at the
    capacity constraints. *)
Theorem stray_triple_raises (d : data) (gap : Q) st e v c :
  z_phase d = Ok st ->
  In (e, v, c) (z_keys st) ->
  v < 0 \/ V d <= v \/ c < 0 \/ C d <= c ->
  (C d <= 0 \/ V d <= Z.of_nat (length (video_sizes d)) ->
   build_model d gap = Raise KeyError) /\
  (0 < C d /\ Z.of_nat (length (video_sizes d)) < V d ->
   build_model d gap = Raise IndexError).
Proof.
  intros Hst Hin Hout. split.
  - intros Hsz. unfold build_model. rewrite Hst. cbn [bind].
    rewrite (caps_closed d) by (intros HC; lia). cbn [bind].
    rewrite (mapM_raises _ (z_keys st) KeyError); [reflexivity | |].
    + intros [[e0 v0] c0] Hk. unfold link_constr. rewrite getitem_z.
      replace (mem _ _) with true by (symmetry; apply mem_true; exact Hk).
      cbn [bind]. rewrite getitem_y.
      destruct (mem _ _); [left; eexists; reflexivity | right; reflexivity].
    + exists (e, v, c). split; [exact Hin |]. unfold link_constr. rewrite getitem_z.
      replace (mem _ _) with true by (symmetry; apply mem_true; exact Hin).
      cbn [bind]. rewrite getitem_y. destruct (mem _ _) eqn:Hm; [| reflexivity].
      apply mem_true in Hm. apply In_y_keys in Hm. lia.
  - intros [HC HV]. unfold build_model. rewrite Hst. cbn [bind].
    rewrite (caps_raise d HC HV). reflexivity.
Qed.

Lemma stray_triple_raises_witness :
  build_model lost_video_data (5 # 1000) = Raise KeyError.
Proof.
  destruct (stray_triple_raises lost_video_data (5 # 1000)
              {| z_keys := [(0, 3, 0)]; z_gain := [((0, 3, 0), 32)];
                 ev_to_caches := [((0, 3), [0])] |} 0 3 0) as [Hkey _].
  - reflexivity.
  - left. reflexivity.
  - right. left. simpl. lia.
  - apply Hkey. right. simpl. lia.
Defined.

(** X20: an endpoint index in [-E, 0) is not rejected: Python indexing
    takes endpoint [E + e], and the builder creates the variables under the
    negative index, with the latencies of that endpoint. *)
Theorem negative_endpoint_aliases d gap m y e v n ep c lat :
  dicts_ok d ->
  build_model d gap = Ok (m, y) ->
  PyDict.get (requests d) (e, v) = Some n ->
  - Z.of_nat (length (endpoints d)) <= e < 0 ->
  nth_error (endpoints d) (Z.to_nat (e + Z.of_nat (length (endpoints d)))) = Some ep ->
  PyDict.get (cache_latencies ep) c = Some lat ->
  0 < dc_latency ep - lat ->
  In (z_var e v c) (vars m) /\
  terms_of (z_var e v c) (objective m) = [(n * (dc_latency ep - lat), z_var e v c)].
Proof.
  intros Hok Hb Hn He Hnth Hlat Hs.
  assert (Hep : list_getitem (endpoints d) e = Ok ep).
  { unfold list_getitem. destruct (e <? 0) eqn:Hneg; [| lia].
    destruct (_ || _) eqn:Hout; [lia |]. rewrite Hnth. reflexivity. }
  destruct (z_created d gap m y e v n ep c lat Hok Hb Hn Hep Hlat) as (Hiff & Hpos & _).
  split; [apply Hiff; exact Hs | apply Hpos; exact Hs].
Qed.

Lemma negative_endpoint_aliases_witness :
  In (z_var (-2) 0 0) (vars stray_model) /\
  terms_of (z_var (-2) 0 0) (objective stray_model) = [(3 * (10 - 2), z_var (-2) 0 0)].
Proof.
  apply (negative_endpoint_aliases stray_data (5 # 1000) stray_model (y_tupledict 1 1)
           (-2) 0 3 {| dc_latency := 10; cache_latencies := [(0, 2); (7, 20)] |} 0 2).
  - split; [| repeat constructor]; unfold PyDict.ok; simpl;
      repeat constructor; simpl; intuition congruence.
  - reflexivity.
  - reflexivity.
  - simpl. lia.
  - reflexivity.
  - reflexivity.
  - reflexivity.
Defined.

(** ** The built model: shape and size *)

Lemma NoDup_list_prod {A B} (l1 : list A) (l2 : list B) :
  NoDup l1 -> NoDup l2 -> NoDup (list_prod l1 l2).
Proof.
  intros H1 H2. induction H1 as [| a l1 Ha _ IH]; simpl; [constructor |].
  apply NoDup_app.
  - apply Finite.Injective_map_NoDup; [| exact H2]. intros x y Hxy; congruence.
  - exact IH.
  - intros [a0 b0] Hin1 Hin2. apply in_map_iff in Hin1.
    destruct Hin1 as (b & Heq & _). inversion Heq; subst.
    apply in_prod_iff in Hin2. tauto.
Qed.

Lemma y_of_inj k k' : y_of k = y_of k' -> k = k'.
Proof. destruct k, k'. simpl. congruence. Qed.

Lemma NoDup_unique_names rs :
  NoDup (map row_ev rs) ->
  NoDup (map cname (map unique_of (flat_map row_group rs))).
Proof.
  induction rs as [| r rs IH]; simpl; intros Hnd; [constructor |].
  inversion Hnd as [| ? ? Hr Hnd']; subst.
  rewrite !map_app. apply NoDup_app.
  - unfold row_group, group. destruct (row_surv r); simpl; repeat constructor. simpl; tauto.
  - auto.
  - intros nm Hin1 Hin2. unfold row_group, group in Hin1.
    destruct (row_surv r); simpl in Hin1; [tauto |].
    destruct Hin1 as [<- | []].
    apply in_map_iff in Hin2. destruct Hin2 as (k & Hname & Hk).
    apply in_map_iff in Hk. destruct Hk as ([[e v] cs] & <- & Hg).
    simpl in Hname. inversion Hname; subst.
    apply In_row_group in Hg. destruct Hg as (r' & Hr' & Hev & _).
    apply Hr. apply in_map_iff. exists r'. split; [exact Hev | exact Hr'].
Qed.

(** X10: the built model has no variable twice and no two constraints of
    the same name. *)
Theorem model_has_no_duplicates d gap m y :
  dicts_ok d ->
  build_model d gap = Ok (m, y) ->
  NoDup (vars m) /\ NoDup (map cname (constrs m)).
Proof.
  intros Hok Hb.
  destruct (build_model_inv d gap m y Hok Hb) as (rs & Hrows & _ & _ & -> & _).
  pose proof (rows_wf_of d rs Hok Hrows) as Hwf.
  pose proof (NoDup_keys rs Hwf) as Hk.
  split; unfold model_of; simpl.
  - apply NoDup_app.
    + apply Finite.Injective_map_NoDup; [intros a b; apply y_of_inj |].
      apply NoDup_list_prod; apply NoDup_range.
    + apply Finite.Injective_map_NoDup; [intros a b; apply z_of_inj | exact Hk].
    + intros x Hy Hz. apply in_map_iff in Hy. destruct Hy as ([v c] & <- & _).
      apply in_map_iff in Hz. destruct Hz as ([[e0 v0] c0] & Heq & _). discriminate.
  - rewrite !map_app. apply NoDup_app; [| apply NoDup_app |].
    + rewrite map_map. simpl. apply Finite.Injective_map_NoDup; [| apply NoDup_range].
      intros a b Hab; congruence.
    + rewrite map_map. apply Finite.Injective_map_NoDup; [| exact Hk].
      intros [[e1 v1] c1] [[e2 v2] c2]; simpl; congruence.
    + apply NoDup_unique_names. exact (proj1 Hwf).
    + intros nm H1 H2. apply in_map_iff in H1. destruct H1 as (k1 & <- & H1).
      apply in_map_iff in H1. destruct H1 as ([[e1 v1] c1] & <- & _).
      apply in_map_iff in H2. destruct H2 as (k2 & Heq & H2).
      apply in_map_iff in H2. destruct H2 as ([[e2 v2] cs] & <- & _). discriminate.
    + intros nm H1 H2. apply in_map_iff in H1. destruct H1 as (k1 & <- & H1).
      apply in_map_iff in H1. destruct H1 as (c1 & <- & _).
      apply in_app_or in H2. destruct H2 as [H2 | H2];
        apply in_map_iff in H2; destruct H2 as (k2 & Heq & H2);
        apply in_map_iff in H2.
      * destruct H2 as ([[e2 v2] c2] & <- & _). discriminate.
      * destruct H2 as ([[e2 v2] cs] & <- & _). discriminate.
Qed.

Lemma model_has_no_duplicates_witness :
  NoDup (vars example_model) /\ NoDup (map cname (constrs example_model)).
Proof.
  apply (model_has_no_duplicates example_data (5 # 1000) example_model (y_tupledict 2 2)
           example_dicts_ok eq_refl).
Defined.

Lemma length_row_group_le rs :
  (length (flat_map row_group rs) <= length rs)%nat /\
  (length (flat_map row_group rs) <= length (flat_map row_keys rs))%nat.
Proof.
  induction rs as [| r rs [IH1 IH2]]; simpl; [lia |].
  rewrite !length_app.
  assert (Hr : (length (row_group r) <= 1 /\ length (row_group r) <= length (row_keys r))%nat)
    by (unfold row_group, group, row_keys; destruct (row_surv r); simpl; lia).
  lia.
Qed.

(** X11: the size of the built model.  It has [V*C] variables [y] and one
    linking constraint per variable [z]; it has [C] capacity constraints; the
    single-source constraints are at most one per request pair and at most
    one per variable [z]; there is no other constraint. *)
Theorem model_size d gap m y :
  dicts_ok d ->
  build_model d gap = Ok (m, y) ->
  length (vars m) = (Z.to_nat (V d) * Z.to_nat (C d) + length (filter is_z (vars m)))%nat /\
  length (filter is_cap (constrs m)) = Z.to_nat (C d) /\
  length (filter is_link (constrs m)) = length (filter is_z (vars m)) /\
  (length (filter is_unique (constrs m)) <= length (requests d))%nat /\
  (length (filter is_unique (constrs m)) <= length (filter is_z (vars m)))%nat /\
  length (constrs m) =
    (length (filter is_cap (constrs m)) + length (filter is_link (constrs m))
     + length (filter is_unique (constrs m)))%nat.
Proof.
  intros Hok Hb.
  destruct (build_model_inv d gap m y Hok Hb) as (rs & Hrows & _ & _ & -> & _).
  rewrite z_vars_closed.
  assert (Hlen : length rs = length (requests d)).
  { unfold rows in Hrows. apply mapM_Forall2 in Hrows.
    symmetry. eapply Forall2_length; eauto. }
  destruct (length_row_group_le rs) as [Hg1 Hg2].
  unfold model_of; simpl.
  assert (Hcap : forall (p : Constr -> bool) (l : list Z) (b : bool),
             (forall c, p (cap_of d c) = b) ->
             filter p (map (cap_of d) l) = if b then map (cap_of d) l else []).
  { intros p l b Hp. destruct b; [apply filter_all | apply filter_none];
      intros k Hk; apply in_map_iff in Hk; destruct Hk as (c & <- & _); apply Hp. }
  assert (Hlink : forall (p : Constr -> bool) (l : list (Z * Z * Z)) (b : bool),
             (forall k, p (link_of k) = b) ->
             filter p (map link_of l) = if b then map link_of l else []).
  { intros p l b Hp. destruct b; [apply filter_all | apply filter_none];
      intros k Hk; apply in_map_iff in Hk; destruct Hk as (k0 & <- & _); apply Hp. }
  assert (Huniq : forall (p : Constr -> bool) (l : list (Z * Z * list Z)) (b : bool),
             (forall k, p (unique_of k) = b) ->
             filter p (map unique_of l) = if b then map unique_of l else []).
  { intros p l b Hp. destruct b; [apply filter_all | apply filter_none];
      intros k Hk; apply in_map_iff in Hk; destruct Hk as (k0 & <- & _); apply Hp. }
  rewrite !filter_app.
  rewrite (Hcap is_cap _ true), (Hcap is_link _ false), (Hcap is_unique _ false)
    by reflexivity.
  rewrite (Hlink is_cap _ false), (Hlink is_link _ true), (Hlink is_unique _ false)
    by (intros [[? ?] ?]; reflexivity).
  rewrite (Huniq is_cap _ false), (Huniq is_link _ false), (Huniq is_unique _ true)
    by (intros [[? ?] ?]; reflexivity).
  simpl. rewrite !app_nil_r.
  rewrite !length_app, !length_map, length_prod, !length_range.
  repeat split; lia.
Qed.

Lemma model_size_witness :
  length (vars example_model) = 7%nat /\
  length (filter is_cap (constrs example_model)) = 2%nat /\
  length (filter is_link (constrs example_model)) = 3%nat /\
  length (constrs example_model) = 8%nat.
Proof.
  destruct (model_size example_data (5 # 1000) example_model (y_tupledict 2 2)
              example_dicts_ok eq_refl) as (Hv & Hc & Hl & _ & _ & Hk).
  split; [exact Hv | split; [exact Hc | split; [exact Hl | exact Hk]]].
Defined.

(** ** The built model: what it means *)

Lemma rows_from_requests d rs r :
  rows d = Ok rs -> In r rs ->
  exists n ep,
    In ((row_e r, row_v r), n) (requests d) /\ In ep (endpoints d) /\
    row_n r = n /\ row_dc r = dc_latency ep /\
    row_surv r = survivors (dc_latency ep) (cache_latencies ep).
Proof.
  intros Hrows Hr. apply mapM_Forall2 in Hrows.
  destruct (Forall2_In_r _ _ _ _ Hrows Hr) as ([[e v] n] & Hitem & Hrow).
  unfold row_of in Hrow. apply bind_Ok in Hrow. destruct Hrow as (ep & Hep & Hrow).
  inversion Hrow; subst r; clear Hrow. simpl.
  exists n, ep. repeat split; auto. eapply list_getitem_In; eauto.
Qed.

(** X12: when no reachable cache of any endpoint is strictly faster than
    the data centre, the built model has no variable [z]: its variables are
    the [y] alone, its constraints the capacity constraints alone, and its
    objective has no term. *)
Theorem no_profitable_cache d gap m y :
  dicts_ok d ->
  build_model d gap = Ok (m, y) ->
  (forall ep c lat, In ep (endpoints d) -> In (c, lat) (cache_latencies ep) ->
     dc_latency ep <= lat) ->
  vars m = map y_of (list_prod (range (V d)) (range (C d))) /\
  constrs m =
    map (fun c => {| cname := cap_cache c;
                     lhs := quicksum (map (fun v => (size_of d v, y_var v c))
                                          (range (V d)));
                     rhs := of_const (X d) |}) (range (C d)) /\
  terms (objective m) = [].
Proof.
  intros Hok Hb Hslow.
  destruct (build_model_inv d gap m y Hok Hb) as (rs & Hrows & _ & _ & -> & _).
  assert (Hk : flat_map row_keys rs = []).
  { apply flat_map_nil. intros r Hr.
    destruct (rows_from_requests d rs r Hrows Hr) as (n & ep & _ & Hep & _ & _ & Hs).
    unfold row_keys. rewrite Hs. unfold survivors. rewrite filter_none; [reflexivity |].
    intros [c lat] Hin. simpl. specialize (Hslow ep c lat Hep Hin).
    destruct (dc_latency ep - lat <=? 0) eqn:Hle; [reflexivity | lia]. }
  destruct (no_keys_no_rows rs Hk) as [Hg Hz].
  unfold model_of; simpl. rewrite Hk, Hg, Hz. simpl. rewrite !app_nil_r.
  repeat split.
Qed.

Lemma no_profitable_cache_witness :
  exists m,
    build_model {| V := 1; E := 1; R := 1; C := 1; X := 10; video_sizes := [5];
                   endpoints := [{| dc_latency := 10; cache_latencies := [(0, 10)] |}];
                   requests := [((0, 0), 4)] |} (5 # 1000) = Ok (m, y_tupledict 1 1) /\
    vars m = [y_var 0 0] /\ terms (objective m) = [].
Proof.
  eexists. split; [reflexivity |].
  match goal with
  | |- vars ?m = _ /\ _ =>
      destruct (no_profitable_cache
                  {| V := 1; E := 1; R := 1; C := 1; X := 10; video_sizes := [5];
                     endpoints := [{| dc_latency := 10; cache_latencies := [(0, 10)] |}];
                     requests := [((0, 0), 4)] |} (5 # 1000) m (y_tupledict 1 1))
        as (Hv & _ & Ho)
  end.
  - split; [| repeat constructor]; unfold PyDict.ok; simpl;
      repeat constructor; simpl; intuition congruence.
  - reflexivity.
  - intros ep c lat [<- | []] [H | []]. inversion H; subst. simpl. lia.
  - split; [exact Hv | exact Ho].
Defined.

Lemma eval_zero (e : LinExpr) :
  (eval zero_assignment e == inject_Z (constant e))%Q.
Proof.
  unfold eval. induction (terms e) as [| t ts IH]; simpl; [reflexivity |].
  rewrite IH. unfold zero_assignment. rewrite Qmult_0_r, Qplus_0_l. reflexivity.
Qed.

(** X13: with a capacity [X >= 0] (or without caches) the built model is
    feasible: storing nothing and serving nothing from a cache meets every
    constraint, whatever the sizes and latencies are, and has objective
    value 0. *)
Theorem zero_assignment_feasible d gap m y :
  dicts_ok d ->
  build_model d gap = Ok (m, y) ->
  0 <= X d \/ C d <= 0 ->
  feasible zero_assignment m /\ (eval zero_assignment (objective m) == 0)%Q.
Proof.
  intros Hok Hb HX.
  destruct (build_model_inv d gap m y Hok Hb) as (rs & Hrows & _ & _ & -> & _).
  split; [| rewrite eval_zero; reflexivity].
  unfold feasible. apply Forall_forall. intros k Hk.
  unfold satisfies. rewrite !eval_zero. rewrite <- Zle_Qle.
  unfold model_of in Hk; simpl in Hk. rewrite !in_app_iff, !in_map_iff in Hk.
  destruct Hk as [(c & <- & Hc) | [([[e v] c] & <- & _) | ([[e v] cs] & <- & _)]]; simpl.
  - apply In_range in Hc. lia.
  - lia.
  - lia.
Qed.

Lemma zero_assignment_feasible_witness :
  feasible zero_assignment example_model /\
  (eval zero_assignment (objective example_model) == 0)%Q.
Proof.
  apply (zero_assignment_feasible example_data (5 # 1000) example_model (y_tupledict 2 2)
           example_dicts_ok eq_refl).
  left. discriminate.
Defined.

(** X14: when every aggregated request count is positive, every term of
    the objective has a positive coefficient: the model holds no variable
    that could not improve the objective. *)
Theorem positive_counts_positive_gains d gap m y :
  dicts_ok d ->
  build_model d gap = Ok (m, y) ->
  (forall k n, In (k, n) (requests d) -> 0 < n) ->
  forall g x, In (g, x) (terms (objective m)) -> 0 < g.
Proof.
  intros Hok Hb Hpos g x Hin.
  destruct (build_model_inv d gap m y Hok Hb) as (rs & Hrows & _ & _ & -> & _).
  unfold model_of in Hin; simpl in Hin.
  apply in_map_iff in Hin. destruct Hin as ([k g0] & Heq & Hin).
  unfold obj_of in Heq; simpl in Heq. inversion Heq; subst; clear Heq.
  apply in_flat_map in Hin. destruct Hin as (r & Hr & Hin).
  destruct (rows_from_requests d rs r Hrows Hr) as (n & ep & Hreq & _ & Hn & Hdc & Hs).
  unfold row_gains in Hin. apply in_map_iff in Hin. destruct Hin as ([c lat] & Heq & Hc).
  inversion Heq; subst; clear Heq.
  rewrite Hs in Hc. apply filter_In in Hc. destruct Hc as [_ Hsave]. simpl in Hsave.
  rewrite Hdc. apply Hpos in Hreq. simpl.
  destruct (dc_latency ep - lat <=? 0) eqn:Hle; [discriminate |]. nia.
Qed.

Lemma positive_counts_positive_gains_witness :
  In (24, z_var (-2) 0 0) (terms (objective stray_model)) /\ 0 < 24.
Proof.
  split; [left; reflexivity |].
  apply (positive_counts_positive_gains stray_data (5 # 1000) stray_model (y_tupledict 1 1))
    with (x := z_var (-2) 0 0).
  - split; [| repeat constructor]; unfold PyDict.ok; simpl;
      repeat constructor; simpl; intuition congruence.
  - reflexivity.
  - intros k n [H | [H | []]]; inversion H; subst; reflexivity.
  - left. reflexivity.
Defined.

(** ** The extractor and the run *)

Lemma cap_sum_binary (x : assignment) (d : data) (c : Z) (l : list Z) :
  (forall v, (x (y_var v c) == 0)%Q \/ (x (y_var v c) == 1)%Q) ->
  (fold_right (fun t acc => inject_Z (fst t) * x (snd t) + acc) (inject_Z 0%Z)
     (map (fun v => (nth (Z.to_nat v) (video_sizes d) 0%Z, y_var v c)) l)
   == inject_Z (total_size d (filter (above_half x c) l)))%Q.
Proof.
  intros Hbin. induction l as [| v l IH]; simpl; [reflexivity |].
  rewrite IH. destruct (Hbin v) as [H0 | H1].
  - destruct (above_half x c v) eqn:Ha.
    + apply above_half_iff in Ha. rewrite H0 in Ha. discriminate Ha.
    + rewrite H0. rewrite Qmult_0_r, Qplus_0_l. reflexivity.
  - destruct (above_half x c v) eqn:Ha.
    + rewrite H1. unfold total_size at 2. simpl. fold (total_size d (filter (above_half x c) l)).
      rewrite inject_Z_plus, Qmult_1_r. reflexivity.
    + exfalso. assert (Hlt : (1 # 2 < x (y_var v c))%Q) by (rewrite H1; reflexivity).
      apply above_half_iff in Hlt. congruence.
Qed.

(** X15: end to end, the plan respects the capacity: when the values read
    back from the solver are 0 or 1 on the variables [y] and meet the
    constraints of the built model, the videos listed under any cache of the
    plan have a total size of at most [X]. *)
Theorem plan_within_capacity d gap m y (x : assignment) plan c vids :
  dicts_ok d ->
  build_model d gap = Ok (m, y) ->
  feasible x m ->
  (forall v c, (x (y_var v c) == 0)%Q \/ (x (y_var v c) == 1)%Q) ->
  cache_to_videos y x d = Ok plan ->
  In (c, vids) plan ->
  total_size d vids <= X d.
Proof.
  intros Hok Hb Hfeas Hbin Hplan Hin.
  destruct (build_model_inv d gap m y Hok Hb) as (rs & Hrows & _ & _ & -> & ->).
  rewrite cache_to_videos_closed in Hplan. inversion Hplan; subst plan; clear Hplan.
  apply In_plan_of in Hin. destruct Hin as (Hc & -> & _).
  assert (Hk : In (cap_of d c) (constrs (model_of d gap rs))).
  { unfold model_of; simpl. apply in_or_app. left. apply in_map. apply In_range. exact Hc. }
  unfold feasible in Hfeas. rewrite Forall_forall in Hfeas. apply Hfeas in Hk.
  unfold satisfies, eval, cap_of in Hk. simpl in Hk.
  rewrite (cap_sum_binary x d c (range (V d)) (fun v => Hbin v c)) in Hk.
  rewrite Zle_Qle. exact Hk.
Qed.

Lemma plan_within_capacity_witness :
  cache_to_videos (y_tupledict 2 2) one_video_assignment example_data = Ok [(0, [0])] /\
  total_size example_data [0] <= X example_data.
Proof.
  split; [reflexivity |].
  apply (plan_within_capacity example_data (5 # 1000) example_model (y_tupledict 2 2)
           one_video_assignment [(0, [0])] 0 [0] example_dicts_ok eq_refl).
  - repeat constructor; vm_compute; intros H; discriminate H.
  - intros v c. unfold one_video_assignment. destruct (eqb _ _); [right | left]; reflexivity.
  - reflexivity.
  - left. reflexivity.
Defined.

(** X17: when the file is read, the model is built and the solver reports
    a solution, the extractor succeeds on the values read back and [main]
    returns with both files written, [videos.out] holding the extractor's
    text. *)
Theorem main_writes_plan (optimize : Model -> Solution) f d m y :
  read_instance f = Ok d ->
  build_model d (5 # 1000) = Ok (m, y) ->
  SolCount (optimize m) <> 0 ->
  exists text,
    write_solution y (Xval (optimize m)) d = Ok text /\
    main optimize f = Returned {| videos_mps := Some m; videos_out := Some text |}.
Proof.
  intros Hread Hb Hsol.
  destruct (read_instance_ok f d Hread) as [Hok _].
  destruct (build_model_inv d _ m y Hok Hb) as (rs & _ & _ & _ & Hm & Hy).
  exists (text_of (plan_of (Xval (optimize m)) d)).
  assert (Hw : write_solution y (Xval (optimize m)) d =
               Ok (text_of (plan_of (Xval (optimize m)) d)))
    by (rewrite Hy; apply write_solution_closed).
  split; [exact Hw |].
  unfold main. rewrite Hread, Hb.
  destruct (SolCount (optimize m) =? 0) eqn:Hz; [lia |].
  rewrite Hw. reflexivity.
Qed.

Lemma main_writes_plan_witness :
  exists text,
    write_solution (y_tupledict 2 2) (Xval (ones_solver example_model)) example_data
      = Ok text /\
    main ones_solver example_file =
      Returned {| videos_mps := Some example_model; videos_out := Some text |}.
Proof.
  apply (main_writes_plan ones_solver example_file example_data example_model
           (y_tupledict 2 2)).
  - reflexivity.
  - reflexivity.
  - discriminate.
Defined.

(** X18: when no value of a variable [y] is above one half, the plan is
    empty and the output consists of the single line [0]. *)
Theorem nothing_stored (x : assignment) (d : data) :
  (forall v c, 0 <= v < V d -> 0 <= c < C d -> (x (y_var v c) <= 1 # 2)%Q) ->
  cache_to_videos (y_tupledict (V d) (C d)) x d = Ok [] /\
  write_solution (y_tupledict (V d) (C d)) x d = Ok (String.append "0" newline).
Proof.
  intros Hx.
  assert (Hplan : plan_of x d = []).
  { unfold plan_of. apply flat_map_nil. intros c Hc. apply In_range in Hc.
    unfold plan_entry, vids_of. rewrite filter_none; [reflexivity |].
    intros v Hv. apply In_range in Hv.
    destruct (above_half x c v) eqn:Ha; [| reflexivity].
    apply above_half_iff in Ha. exfalso.
    exact (Qlt_not_le _ _ Ha (Hx v c Hv Hc)). }
  rewrite cache_to_videos_closed, write_solution_closed, Hplan. split; reflexivity.
Qed.

Lemma nothing_stored_witness :
  write_solution (y_tupledict 2 2) (fun _ => 1 # 2) example_data
  = Ok (String.append "0" newline).
Proof.
  apply (nothing_stored (fun _ => 1 # 2) example_data).
  intros v c _ _. apply Qle_refl.
Defined.

Lemma filterM_Ok_or {A} (p : A -> result bool) (l : list A) (e : exn) :
  (forall a, (exists b, p a = Ok b) \/ p a = Raise e) ->
  (exists r, filterM p l = Ok r) \/ filterM p l = Raise e.
Proof.
  intros Hp. induction l as [| a l IH]; simpl; [left; eauto |].
  destruct (Hp a) as [[b Hb] | Ha].
  - rewrite Hb. simpl. destruct IH as [[r Hr] | Hr]; rewrite Hr; simpl; eauto.
  - rewrite Ha. right. reflexivity.
Qed.

Lemma filterM_raises {A} (p : A -> result bool) (l : list A) (e : exn) :
  (forall a, (exists b, p a = Ok b) \/ p a = Raise e) ->
  (exists a, In a l /\ p a = Raise e) ->
  filterM p l = Raise e.
Proof.
  intros Hp. induction l as [| a l IH]; intros (a0 & Hin & Ha0); [destruct Hin |].
  simpl. destruct (Hp a) as [[b Hb] | Ha].
  - rewrite Hb. simpl. rewrite IH; [reflexivity |].
    destruct Hin as [-> | Hin]; [congruence | eauto].
  - rewrite Ha. reflexivity.
Qed.

Lemma foldM_raises {A B} (f : A -> B -> result A) (l : list B) (e : exn) :
  (forall acc b, (exists acc', f acc b = Ok acc') \/ f acc b = Raise e) ->
  (exists b, In b l /\ forall acc, f acc b = Raise e) ->
  forall acc, foldM f l acc = Raise e.
Proof.
  intros Hf. induction l as [| b l IH]; intros (b0 & Hin & Hb0) acc; [destruct Hin |].
  simpl. destruct (Hf acc b) as [[acc' Hacc] | Hb].
  - rewrite Hacc. simpl. apply IH.
    destruct Hin as [-> | Hin]; [rewrite Hb0 in Hacc; discriminate | eauto].
  - rewrite Hb. reflexivity.
Qed.

Lemma stored_Ok_or y x c v :
  (exists b, stored y x c v = Ok b) \/ stored y x c v = Raise KeyError.
Proof.
  unfold stored, PyDict.getitem. destruct (PyDict.get y (v, c)); simpl; eauto.
Qed.

(** X19: called with a tupledict that lacks the key [(v,c)] of some video
    and cache of the instance, the extractor fails with [KeyError]; no text
    is produced. *)
Theorem write_solution_missing_key y (x : assignment) (d : data) v c :
  0 <= v < V d -> 0 <= c < C d ->
  PyDict.get y (v, c) = None ->
  write_solution y x d = Raise KeyError.
Proof.
  intros Hv Hc Hget. unfold write_solution, cache_to_videos.
  rewrite (foldM_raises (plan_step y x d) (range (C d)) KeyError); [reflexivity | |].
  - intros acc c0. unfold plan_step.
    destruct (filterM_Ok_or (stored y x c0) (range (V d)) KeyError
                (stored_Ok_or y x c0)) as [[r Hr] | Hr]; rewrite Hr; simpl; eauto.
  - exists c. split; [apply In_range; exact Hc |]. intros acc. unfold plan_step.
    rewrite (filterM_raises (stored y x c) (range (V d)) KeyError);
      [reflexivity | apply stored_Ok_or |].
    exists v. split; [apply In_range; exact Hv |].
    unfold stored, PyDict.getitem. rewrite Hget. reflexivity.
Qed.

Lemma write_solution_missing_key_witness :
  write_solution (y_tupledict 2 1) (fun _ => 1%Q) example_data = Raise KeyError.
Proof.
  apply (write_solution_missing_key (y_tupledict 2 1) (fun _ => 1%Q) example_data 0 1).
  - simpl. lia.
  - simpl. lia.
  - reflexivity.
Defined.

(** ** What a feasible 0/1 assignment means *)

Lemma unique_sum_binary (x : assignment) (e v : Z) (cs : list Z) :
  (forall c, (x (z_var e v c) == 0)%Q \/ (x (z_var e v c) == 1)%Q) ->
  (fold_right (fun t acc => inject_Z (fst t) * x (snd t) + acc) (inject_Z 0%Z)
     (map (fun c => (1%Z, z_var e v c)) cs)
   == inject_Z (Z.of_nat (length (filter (fun c => Qeq_bool (x (z_var e v c)) 1) cs))))%Q.
Proof.
  intros Hbin. induction cs as [| c cs IH]; simpl; [reflexivity |].
  rewrite IH. destruct (Hbin c) as [H0 | H1].
  - destruct (Qeq_bool (x (z_var e v c)) 1) eqn:Hq.
    + apply Qeq_bool_iff in Hq. rewrite H0 in Hq. discriminate Hq.
    + rewrite H0. rewrite Qmult_0_r, Qplus_0_l. reflexivity.
  - destruct (Qeq_bool (x (z_var e v c)) 1) eqn:Hq.
    + rewrite H1. cbn [length]. rewrite Nat2Z.inj_succ, <- Z.add_1_l, inject_Z_plus.
      rewrite Qmult_1_r. reflexivity.
    + apply Qeq_bool_neq in Hq. tauto.
Qed.

(** X21: what the constraints buy.  Take values, 0 or 1 on every variable,
    that meet the constraints of the built model.  A request pair [(e,v)] is
    then served from at most one cache, and a cache that serves it stores
    the video. *)
Theorem feasible_binary_meaning d gap m y (x : assignment) e v c1 c2 :
  dicts_ok d ->
  build_model d gap = Ok (m, y) ->
  feasible x m ->
  (forall z, (x z == 0)%Q \/ (x z == 1)%Q) ->
  In (z_var e v c1) (vars m) ->
  In (z_var e v c2) (vars m) ->
  (x (z_var e v c1) == 1)%Q ->
  (x (z_var e v c2) == 1)%Q ->
  c1 = c2 /\ (x (y_var v c1) == 1)%Q.
Proof.
  intros Hok Hb Hfeas Hbin Hz1 Hz2 Hx1 Hx2.
  destruct (build_model_inv d gap m y Hok Hb) as (rs & Hrows & _ & _ & -> & _).
  pose proof (rows_wf_of d rs Hok Hrows) as Hwf.
  unfold feasible in Hfeas. rewrite Forall_forall in Hfeas.
  apply In_z_vars in Hz1. apply In_z_vars in Hz2.
  split.
  - pose proof Hz1 as Hk1. pose proof Hz2 as Hk2.
    apply In_row_keys in Hk1. destruct Hk1 as (r & Hr & Hev & Hc1).
    apply In_row_keys in Hk2. destruct Hk2 as (r' & Hr' & Hev' & Hc2).
    assert (r' = r) by (apply (row_unique rs); [exact (proj1 Hwf) | | | congruence]; assumption).
    subst r'.
    assert (Hnd : NoDup (map fst (row_surv r))).
    { destruct Hwf as [_ Hs]. rewrite Forall_forall in Hs. apply Hs. exact Hr. }
    assert (Hk : In (unique_of (e, v, map fst (row_surv r))) (constrs (model_of d gap rs))).
    { unfold model_of; cbn [constrs]. apply in_or_app. right. apply in_or_app. right.
      apply (in_map unique_of). apply in_flat_map. exists r. split; [exact Hr |].
      unfold row_group, group. unfold row_ev in Hev. inversion Hev; subst.
      destruct (row_surv r); [destruct Hc1 | left; reflexivity]. }
    apply Hfeas in Hk. unfold satisfies, eval, unique_of in Hk. simpl in Hk.
    rewrite (unique_sum_binary x e v _ (fun c => Hbin (z_var e v c))) in Hk.
    rewrite <- Zle_Qle in Hk.
    destruct (Z.eq_dec c1 c2) as [Heq | Hne]; [exact Heq | exfalso].
    set (ones := filter (fun c => Qeq_bool (x (z_var e v c)) 1) (map fst (row_surv r))) in *.
    assert (Hin1 : In c1 ones)
      by (apply filter_In; split; [exact Hc1 | apply Qeq_bool_iff; exact Hx1]).
    assert (Hin2 : In c2 ones)
      by (apply filter_In; split; [exact Hc2 | apply Qeq_bool_iff; exact Hx2]).
    assert (Hlen : (length [c1; c2] <= length ones)%nat).
    { apply NoDup_incl_length.
      - constructor; [simpl; intros [H | []]; congruence |].
        constructor; [simpl; tauto | constructor].
      - intros c [<- | [<- | []]]; assumption. }
    simpl in Hlen. lia.
  - assert (Hk : In (link_of (e, v, c1)) (constrs (model_of d gap rs))).
    { unfold model_of; cbn [constrs]. apply in_or_app. right. apply in_or_app. left.
      apply (in_map link_of). exact Hz1. }
    apply Hfeas in Hk. unfold satisfies, eval in Hk. simpl in Hk.
    destruct (Hbin (y_var v c1)) as [H0 | H1]; [exfalso | exact H1].
    rewrite Hx1, H0 in Hk. revert Hk. apply Qlt_not_le. reflexivity.
Qed.

Lemma feasible_binary_meaning_witness :
  (0 = 0) /\ (served_assignment (y_var 0 0) == 1)%Q.
Proof.
  apply (feasible_binary_meaning example_data (5 # 1000) example_model (y_tupledict 2 2)
           served_assignment 0 0 0 0 example_dicts_ok eq_refl).
  - repeat constructor; vm_compute; intros H; discriminate H.
  - intros z. unfold served_assignment.
    destruct (eqb z (z_var 0 0 0)); [right; reflexivity |].
    destruct (eqb z (y_var 0 0)); [right | left]; reflexivity.
  - simpl. tauto.
  - simpl. tauto.
  - reflexivity.
  - reflexivity.
Defined.
